(** * Rebuy marketplace: the offer feed store and its data source

    A shallow embedding of
    - [OffersStore] (features/offers/data-access/store/offers.store.ts):
      pagination, optimistic voting with rollback, vote persistence;
    - [OffersApiService.updateVote]
      (shared/data-access/api/offers-api.service.ts): the in-memory vote cache;
    - the platform pieces the store calls: [JSON.stringify] / [JSON.parse],
      the [localStorage] slot, [Array.prototype.sort] and Angular's
      [rxResource].

    Conventions.  A TypeScript [number] that holds a vote tally is a [Z]
    standing for an integer-valued double; sums and differences of tallies
    are rounded as IEEE doubles round them ([js_add], [js_sub]), so they
    are exact up to 2^53 and not beyond.  A JavaScript string is a Rocq [string] whose characters
    stand for the UTF-16 code units U+0000..U+00FF.  Signals become record
    fields, [void] methods become state transformers, and calls that may
    throw return an [outcome]. *)

From Stdlib Require Import ZArith QArith Ascii String.
From stdpp Require Import base option list strings gmap sorting pretty.

Local Open Scope string_scope.
Local Open Scope Z_scope.
Local Open Scope list_scope.

(** ** Characters used by the JSON grammar *)

Definition dquote : ascii := ascii_of_nat 34.
Definition backslash : ascii := ascii_of_nat 92.

(** Concrete JSON texts are written with ['] in place of the quotation
    mark; [q] puts the quotation marks back. *)
Fixpoint q (s : string) : string :=
  match s with
  | EmptyString => EmptyString
  | String c rest => String (if Ascii.eqb c "'" then dquote else c) (q rest)
  end.

(** ** JSON values and the two built-ins [JSON.stringify] and [JSON.parse] *)

Module JSON.

#[warnings="-register-all"]
Inductive value : Type :=
| JNull
| JBool (b : bool)
| JNumber (n : Z)
| JString (s : string)
| JArray (items : list value)
| JObject (members : list (string * value)).

(** *** [JSON.stringify] (no indentation): ECMA-262 SerializeJSONProperty *)

Definition hex_char (n : N) : ascii :=
  if (n <? 10)%N then ascii_of_N (48 + n) else ascii_of_N (87 + n).

(** QuoteJSONString on one code unit: the two-character escapes, [\u00xx]
    for the other control characters, everything else verbatim. *)
Definition escape_char (c : ascii) : string :=
  let n := N_of_ascii c in
  if (n =? 34)%N then String backslash (String dquote EmptyString)
  else if (n =? 92)%N then String backslash (String backslash EmptyString)
  else if (n =? 8)%N then String backslash "b"
  else if (n =? 9)%N then String backslash "t"
  else if (n =? 10)%N then String backslash "n"
  else if (n =? 12)%N then String backslash "f"
  else if (n =? 13)%N then String backslash "r"
  else if (n <? 32)%N then
    String backslash
      (String "u" (String "0" (String "0"
        (String (hex_char (n / 16)) (String (hex_char (n mod 16)) EmptyString)))))
  else String c EmptyString.

Fixpoint escape (s : string) : string :=
  match s with
  | EmptyString => EmptyString
  | String c rest => escape_char c +:+ escape rest
  end.

Definition quote (s : string) : string :=
  String dquote (escape s +:+ String dquote EmptyString).

(** Elements and members are separated by a single comma. *)
Fixpoint join (parts : list string) : string :=
  match parts with
  | [] => EmptyString
  | [p] => p
  | p :: rest => p +:+ "," +:+ join rest
  end.

Fixpoint stringify (v : value) : string :=
  match v with
  | JNull => "null"
  | JBool true => "true"
  | JBool false => "false"
  | JNumber n => pretty n
  | JString s => quote s
  | JArray items => "[" +:+ join (map stringify items) +:+ "]"
  | JObject members =>
      "{" +:+ join (map (fun kv => quote (fst kv) +:+ ":" +:+ stringify (snd kv)) members)
          +:+ "}"
  end.

(** *** [JSON.parse]: the JSON grammar of ECMA-404

    A parse yields a value and the unread rest, fails with a syntax error,
    or runs out of fuel.  The flag [exact] is cleared when the text denotes
    a value this development has no exact counterpart for: a [\u] escape
    above U+00FF, or a number with a fraction, an exponent or more than 53
    bits. *)

Inductive presult (A : Type) : Type :=
| Parsed (a : A) (exact : bool) (rest : string)
| SyntaxError
| Exhausted.
Arguments Parsed {A} a exact rest.
Arguments SyntaxError {A}.
Arguments Exhausted {A}.

Definition pbind {A B} (m : presult A) (k : A -> string -> presult B) : presult B :=
  match m with
  | Parsed a e rest =>
      match k a rest with
      | Parsed b e' rest' => Parsed b (e && e') rest'
      | SyntaxError => SyntaxError
      | Exhausted => Exhausted
      end
  | SyntaxError => SyntaxError
  | Exhausted => Exhausted
  end.

Definition pmap {A B} (f : A -> B) (m : presult A) : presult B :=
  match m with
  | Parsed a e rest => Parsed (f a) e rest
  | SyntaxError => SyntaxError
  | Exhausted => Exhausted
  end.

Definition is_ws (c : ascii) : bool :=
  let n := N_of_ascii c in
  ((n =? 32) || (n =? 9) || (n =? 10) || (n =? 13))%N.

Fixpoint skip_ws (s : string) : string :=
  match s with
  | String c rest => if is_ws c then skip_ws rest else s
  | EmptyString => s
  end.

Definition hex_digit (c : ascii) : option N :=
  let n := N_of_ascii c in
  if ((48 <=? n) && (n <=? 57))%N then Some (n - 48)%N
  else if ((65 <=? n) && (n <=? 70))%N then Some (n - 55)%N
  else if ((97 <=? n) && (n <=? 102))%N then Some (n - 87)%N
  else None.

Definition hex4 (a b c d : ascii) : option N :=
  match hex_digit a, hex_digit b, hex_digit c, hex_digit d with
  | Some x, Some y, Some z, Some w => Some (((x * 16 + y) * 16 + z) * 16 + w)%N
  | _, _, _, _ => None
  end.

(** The character a two-character escape stands for. *)
Definition unescape (e : ascii) : option ascii :=
  let n := N_of_ascii e in
  if (n =? 34)%N then Some dquote
  else if (n =? 92)%N then Some backslash
  else if (n =? 47)%N then Some "/"%char
  else if (n =? 98)%N then Some (ascii_of_nat 8)
  else if (n =? 102)%N then Some (ascii_of_nat 12)
  else if (n =? 110)%N then Some (ascii_of_nat 10)
  else if (n =? 114)%N then Some (ascii_of_nat 13)
  else if (n =? 116)%N then Some (ascii_of_nat 9)
  else None.

(** The characters of a string literal, read after its opening quotation
    mark up to and including the closing one. *)
Fixpoint string_chars (s : string) : presult string :=
  match s with
  | EmptyString => SyntaxError
  | String c rest =>
      if Ascii.eqb c dquote then Parsed EmptyString true rest
      else if Ascii.eqb c backslash then
        match rest with
        | String e rest1 =>
            if Ascii.eqb e "u" then
              match rest1 with
              | String h1 (String h2 (String h3 (String h4 rest2))) =>
                  match hex4 h1 h2 h3 h4 with
                  | Some n =>
                      if (n <? 256)%N
                      then pmap (String (ascii_of_N n)) (string_chars rest2)
                      else pbind (string_chars rest2)
                             (fun cs r => Parsed (String "?" cs) false r)
                  | None => SyntaxError
                  end
              | _ => SyntaxError
              end
            else
              match unescape e with
              | Some d => pmap (String d) (string_chars rest1)
              | None => SyntaxError
              end
        | EmptyString => SyntaxError
        end
      else if (N_of_ascii c <? 32)%N then SyntaxError
      else pmap (String c) (string_chars rest)
  end.

Definition is_digit (c : ascii) : bool :=
  let n := N_of_ascii c in ((48 <=? n) && (n <=? 57))%N.

Definition digit_val (c : ascii) : Z := Z.of_N (N_of_ascii c) - 48.

(** Reads a possibly empty run of digits, accumulating its value. *)
Fixpoint digits (acc : Z) (s : string) : Z * nat * string :=
  match s with
  | String c rest =>
      if is_digit c
      then let '(v, k, r) := digits (acc * 10 + digit_val c) rest in (v, S k, r)
      else (acc, 0%nat, s)
  | EmptyString => (acc, 0%nat, s)
  end.

(** [int frac? exp?] after an optional minus sign. *)
Definition number_tail (neg : bool) (s : string) : presult value :=
  match s with
  | String c rest =>
      if is_digit c then
        let '(v, r) :=
          if Ascii.eqb c "0" then (0, rest)
          else let '(v, _, r) := digits (digit_val c) rest in (v, r) in
        let '(has_frac, ok_frac, r1) :=
          match r with
          | String "." r' =>
              let '(_, k, r'') := digits 0 r' in (true, negb (Nat.eqb k 0), r'')
          | _ => (false, true, r)
          end in
        let '(has_exp, ok_exp, r2) :=
          match r1 with
          | String e r' =>
              if Ascii.eqb e "e" || Ascii.eqb e "E" then
                let r'' :=
                  match r' with
                  | String sg t => if Ascii.eqb sg "+" || Ascii.eqb sg "-" then t else r'
                  | EmptyString => r'
                  end in
                let '(_, k, r''') := digits 0 r'' in (true, negb (Nat.eqb k 0), r''')
              else (false, true, r1)
          | EmptyString => (false, true, r1)
          end in
        if ok_frac && ok_exp
        then Parsed (JNumber (if neg then Z.opp v else v))
               (negb has_frac && negb has_exp && (v <=? 2 ^ 53)%Z) r2
        else SyntaxError
      else SyntaxError
  | EmptyString => SyntaxError
  end.

Definition literal (word : string) (v : value) (s : string) : presult value :=
  match String.length word, String.prefix word s with
  | n, true => Parsed v true (String.substring n (String.length s - n) s)
  | _, false => SyntaxError
  end.

Fixpoint parse_value (fuel : nat) (s : string) : presult value :=
  match fuel with
  | O => Exhausted
  | S fuel =>
      match skip_ws s with
      | EmptyString => SyntaxError
      | String c rest =>
          if Ascii.eqb c dquote then pmap JString (string_chars rest)
          else if Ascii.eqb c "[" then
            match skip_ws rest with
            | String "]" rest' => Parsed (JArray []) true rest'
            | _ => pmap JArray (parse_elements fuel rest)
            end
          else if Ascii.eqb c "{" then
            match skip_ws rest with
            | String "}" rest' => Parsed (JObject []) true rest'
            | _ => pmap JObject (parse_members fuel rest)
            end
          else if Ascii.eqb c "t" then literal "true" (JBool true) (String c rest)
          else if Ascii.eqb c "f" then literal "false" (JBool false) (String c rest)
          else if Ascii.eqb c "n" then literal "null" JNull (String c rest)
          else if Ascii.eqb c "-" then number_tail true rest
          else number_tail false (String c rest)
      end
  end
with parse_elements (fuel : nat) (s : string) : presult (list value) :=
  match fuel with
  | O => Exhausted
  | S fuel =>
      pbind (parse_value fuel s) (fun v r =>
        match skip_ws r with
        | String "," r' => pmap (cons v) (parse_elements fuel r')
        | String "]" r' => Parsed [v] true r'
        | _ => SyntaxError
        end)
  end
with parse_members (fuel : nat) (s : string) : presult (list (string * value)) :=
  match fuel with
  | O => Exhausted
  | S fuel =>
      match skip_ws s with
      | String c r0 =>
          if Ascii.eqb c dquote then
            pbind (string_chars r0) (fun k r =>
              match skip_ws r with
              | String ":" r1 =>
                  pbind (parse_value fuel r1) (fun v r2 =>
                    match skip_ws r2 with
                    | String "," r3 => pmap (cons (k, v)) (parse_members fuel r3)
                    | String "}" r3 => Parsed [(k, v)] true r3
                    | _ => SyntaxError
                    end)
              | _ => SyntaxError
              end)
          else SyntaxError
      | EmptyString => SyntaxError
      end
  end.

End JSON.

(** ** Outcomes of calls that may throw *)

Inductive js_error : Type :=
| JSONSyntaxError
| ResourceValueError (message : string).

(** [OutsideModel]: the call returns in JavaScript, with a value that the
    types of this development cannot hold. *)
Inductive outcome (A : Type) : Type :=
| Returned (a : A)
| Thrown (e : js_error)
| OutsideModel.
Arguments Returned {A} a.
Arguments Thrown {A} e.
Arguments OutsideModel {A}.

Definition obind {A B} (m : outcome A) (k : A -> outcome B) : outcome B :=
  match m with
  | Returned a => k a
  | Thrown e => Thrown e
  | OutsideModel => OutsideModel
  end.

(** [JSON.parse(text)]: one value, then only white space.  Every recursive
    call of the parser but one in two follows a character it has read, so
    two units of fuel per character are enough; running out of fuel is kept
    apart from a syntax error all the same. *)
Definition JSON_parse (text : string) : outcome JSON.value :=
  match JSON.parse_value (2 * String.length text + 2) text with
  | JSON.Parsed v exact rest =>
      match JSON.skip_ws rest with
      | EmptyString => if exact then Returned v else OutsideModel
      | String _ _ => Thrown JSONSyntaxError
      end
  | JSON.SyntaxError => Thrown JSONSyntaxError
  | JSON.Exhausted => OutsideModel
  end.

(** ** [Number] addition and subtraction on integer values

    The doubles hold every integer up to [max_exact] = 2^53 in magnitude;
    beyond it they keep 53 significant bits.  [round_double] is
    round-to-nearest, ties to even, of an integer to such a double.
    Operands that are not integers, and results of magnitude 2^1024 and
    more, which a double turns into [Infinity], are outside the model: the
    properties that depend on the arithmetic keep the tallies within
    [max_exact]. *)

Definition max_exact : Z := 9007199254740992.

Definition round_double (z : Z) : Z :=
  let a := Z.abs z in
  if a <=? max_exact then z
  else
    let e := Z.log2 a - 52 in
    let q := a / 2 ^ e in
    let r := a mod 2 ^ e in
    let half := 2 ^ (e - 1) in
    let q' := if r <? half then q
              else if half <? r then q + 1
              else if Z.even q then q else q + 1 in
    Z.sgn z * (q' * 2 ^ e).

(** [a + b] and [a - b] *)
Definition js_add (a b : Z) : Z := round_double (a + b).
Definition js_sub (a b : Z) : Z := round_double (a - b).

(** ** [Array.prototype.sort(compareFn)]

    ECMA-262 (2019 and later) fixes the result for a consistent comparator:
    a permutation, ordered by [compareFn], equal elements in their original
    order.  The insertion sort below computes that list; [x] goes in front
    of the first element it does not have to follow. *)

Section ArraySort.
Context {A : Type} (compareFn : A -> A -> Z).

Fixpoint sort_insert (x : A) (l : list A) : list A :=
  match l with
  | [] => [x]
  | y :: l' => if compareFn x y <=? 0 then x :: l else y :: sort_insert x l'
  end.

Definition Array_sort (l : list A) : list A := foldr sort_insert [] l.
End ArraySort.

(** ** The data model (offer.model.ts) *)

Inductive OfferCondition : Type := cond_new | cond_like_new | cond_good | cond_fair.

Record Offer : Type := mkOffer {
  id : string;
  title : string;
  description : string;
  price : Q;
  currency : string;
  imageUrl : string;
  votes : Z;
  category : string;
  seller : string;
  condition : OfferCondition;
  createdAt : Z
}.

(** [{ ...offer, votes: v }] *)
Definition with_votes (offer : Offer) (v : Z) : Offer :=
  {| id := id offer; title := title offer; description := description offer;
     price := price offer; currency := currency offer; imageUrl := imageUrl offer;
     votes := v; category := category offer; seller := seller offer;
     condition := condition offer; createdAt := createdAt offer |}.

(** [type VoteType = 1 | -1] *)
Inductive VoteType : Type := up | down.

Definition VoteType_value (t : VoteType) : Z :=
  match t with up => 1 | down => -1 end.

Record UserVote : Type := mkUserVote {
  offerId : string;
  voteType : VoteType
}.

(** The JSON image of a [UserVote[]], members in the order the store
    creates them, and the reading of a parsed value at that type: a value of
    any other shape has no counterpart in [list UserVote]. *)
Definition UserVote_to_json (v : UserVote) : JSON.value :=
  JSON.JObject [("offerId", JSON.JString (offerId v));
                ("voteType", JSON.JNumber (VoteType_value (voteType v)))].

Definition UserVotes_to_json (votes : list UserVote) : JSON.value :=
  JSON.JArray (map UserVote_to_json votes).

Definition UserVote_of_json (j : JSON.value) : option UserVote :=
  match j with
  | JSON.JObject [(k1, JSON.JString i); (k2, JSON.JNumber n)] =>
      if String.eqb k1 "offerId" && String.eqb k2 "voteType" then
        if n =? 1 then Some (mkUserVote i up)
        else if n =? -1 then Some (mkUserVote i down)
        else None
      else None
  | _ => None
  end.

Definition UserVotes_of_json (j : JSON.value) : option (list UserVote) :=
  match j with
  | JSON.JArray items => mapM UserVote_of_json items
  | _ => None
  end.

(** The text [JSON.stringify] writes for one vote. *)
Definition vote_text (v : UserVote) : string := JSON.stringify (UserVote_to_json v).

(** ** The offers data source (offers-api.service.ts) *)

Module OffersApiService.

Record OffersPageResponse : Type := mkPage {
  offers : list Offer;
  total : nat;
  page : nat;
  pageSize : nat;
  hasMore : bool
}.

(** The private fields [#allOffers] and [#votesCache]. *)
Record t : Type := mkApi {
  allOffers : option (list Offer);
  votesCache : gmap string Z
}.

Definition init : t := {| allOffers := None; votesCache := ∅ |}.

(** The body of [getOffers]' [map] callback, run on the list [fetched]
    that the HTTP GET delivered. *)
Definition getOffers (page pageSize : nat) (fetched : list Offer) (api : t)
  : t * OffersPageResponse :=
  let offersWithVotes :=
    map (fun offer => with_votes offer (default (votes offer) (votesCache api !! id offer)))
        fetched in
  let start := (page * pageSize)%nat in
  let end_ := (start + pageSize)%nat in
  let paginatedOffers := take pageSize (drop start offersWithVotes) in
  ({| allOffers := Some fetched; votesCache := votesCache api |},
   {| offers := paginatedOffers; total := length fetched; page := page;
      pageSize := pageSize; hasMore := bool_decide (end_ < length fetched)%nat |}).

(** [updateVote]: the new state and the [votes] field of the object the
    returned observable emits. *)
Definition updateVote (offerId : string) (voteChange : Z) (api : t) : t * Z :=
  let currentVotes :=
    match votesCache api !! offerId with
    | Some v => v
    | None =>
        match allOffers api ≫= find (fun o => String.eqb (id o) offerId) with
        | Some o => votes o
        | None => 0
        end
    end in
  let newVotes := js_add currentVotes voteChange in
  ({| allOffers := allOffers api; votesCache := <[offerId := newVotes]> (votesCache api) |},
   newVotes).

(** The body of [getOfferById]'s [map] callback, run on the list the HTTP
    GET delivered; it writes neither private field.  [None] is [null]. *)
Definition getOfferById (offer_id : string) (fetched : list Offer) (api : t)
  : option Offer :=
  match find (fun o => String.eqb (id o) offer_id) fetched with
  | Some offer =>
      match votesCache api !! offer_id with
      | Some v => Some (with_votes offer v)
      | None => Some offer
      end
  | None => None
  end.

(** What the spec calls the data source's own last-known total for an id:
    the cached total, else the tally in the last fetched list, else 0. *)
Definition known (api : t) (offerId : string) : Prop :=
  is_Some (votesCache api !! offerId) ∨
  ∃ l o, allOffers api = Some l ∧ o ∈ l ∧ id o = offerId.

Definition lastKnownTotal (api : t) (offerId : string) : Z :=
  match votesCache api !! offerId with
  | Some v => v
  | None =>
      match allOffers api with
      | Some l => from_option votes 0 (find (fun o => String.eqb (id o) offerId) l)
      | None => 0
      end
  end.

End OffersApiService.

(** ** The offer feed store (offers.store.ts) *)

Module OffersStore.

Import OffersApiService (OffersPageResponse).

(** Angular's [rxResource], as far as the store reads it: loading since the
    last change of [params], resolved with the emitted value, or in error. *)
Inductive ResourceState : Type :=
| Loading
| Resolved (value : OffersPageResponse)
| Errored (message : string).

(** The private signals of the store, the [localStorage] slot
    ['rebuy_user_votes'], and the calls to the data source that have not
    completed yet, oldest first.  A [getOffers] call is entered in
    [getOffers_pending] when the resource's [params] change; Angular issues
    it when it next flushes the resource's effect, so the list holds the
    calls issued or about to be. *)
Record t : Type := mkStore {
  currentPage : nat;
  accumulatedOffers : list Offer;
  userVotesSignal : list UserVote;
  offersResource : ResourceState;
  localStorage : option string;
  getOffers_pending : list (nat * nat);
  updateVote_pending : list (string * Z)
}.

Definition pageSize : nat := 10.

(** *** Persistence *)

(** [stored ? JSON.parse(stored) : []], typed [UserVote[]] by assertion: a
    parsed value of another shape is outside the typed model. *)
Definition loadUserVotes (stored : option string) : outcome (list UserVote) :=
  match stored with
  | Some (String c rest) =>
      obind (JSON_parse (String c rest)) (fun j =>
        match UserVotes_of_json j with
        | Some votes => Returned votes
        | None => OutsideModel
        end)
  | Some EmptyString => Returned []
  | None => Returned []
  end.

Definition saveUserVotes (s : t) : t :=
  {| currentPage := currentPage s; accumulatedOffers := accumulatedOffers s;
     userVotesSignal := userVotesSignal s; offersResource := offersResource s;
     localStorage := Some (JSON.stringify (UserVotes_to_json (userVotesSignal s)));
     getOffers_pending := getOffers_pending s;
     updateVote_pending := updateVote_pending s |}.

(** *** Construction: the field initialisers, in order.  The resource starts
    loading page 0. *)
Definition new (stored : option string) : outcome t :=
  obind (loadUserVotes stored) (fun votes =>
    Returned {| currentPage := 0; accumulatedOffers := [];
                userVotesSignal := votes; offersResource := Loading;
                localStorage := stored;
                getOffers_pending := [(0%nat, pageSize)];
                updateVote_pending := [] |}).

(** *** Derived signals *)

Definition offers (s : t) : list Offer :=
  Array_sort (fun a b => votes b - votes a) (accumulatedOffers s).

Definition loading (s : t) : bool :=
  match offersResource s with Loading => true | _ => false end.

Definition error (s : t) : option string :=
  match offersResource s with Errored message => Some message | _ => None end.

Definition userVotes (s : t) : list UserVote := userVotesSignal s.

Definition getOfferById (offer_id : string) (s : t) : option Offer :=
  find (fun offer => String.eqb (id offer) offer_id) (accumulatedOffers s).

Definition getUserVote (offer_id : string) (s : t) : Z :=
  match find (fun v => String.eqb (offerId v) offer_id) (userVotesSignal s) with
  | Some vote => VoteType_value (voteType vote)
  | None => 0
  end.

(** *** Vote bookkeeping *)

Definition set_userVotes (votes : list UserVote) (s : t) : t :=
  {| currentPage := currentPage s; accumulatedOffers := accumulatedOffers s;
     userVotesSignal := votes; offersResource := offersResource s;
     localStorage := localStorage s; getOffers_pending := getOffers_pending s;
     updateVote_pending := updateVote_pending s |}.

Definition addUserVote (offer_id : string) (vt : VoteType) (s : t) : t :=
  set_userVotes (userVotesSignal s ++ [mkUserVote offer_id vt]) s.

Definition updateUserVote (offer_id : string) (vt : VoteType) (s : t) : t :=
  set_userVotes
    (map (fun v => if String.eqb (offerId v) offer_id then mkUserVote (offerId v) vt else v)
         (userVotesSignal s)) s.

Definition removeVote (offer_id : string) (s : t) : t :=
  set_userVotes
    (List.filter (fun v => negb (String.eqb (offerId v) offer_id)) (userVotesSignal s)) s.

(** *** Optimistic tally update, and the two callbacks of its subscription *)

Definition set_accumulatedOffers (l : list Offer) (s : t) : t :=
  {| currentPage := currentPage s; accumulatedOffers := l;
     userVotesSignal := userVotesSignal s; offersResource := offersResource s;
     localStorage := localStorage s; getOffers_pending := getOffers_pending s;
     updateVote_pending := updateVote_pending s |}.

Definition set_updateVote_pending (calls : list (string * Z)) (s : t) : t :=
  {| currentPage := currentPage s; accumulatedOffers := accumulatedOffers s;
     userVotesSignal := userVotesSignal s; offersResource := offersResource s;
     localStorage := localStorage s; getOffers_pending := getOffers_pending s;
     updateVote_pending := calls |}.

Definition updateOfferVotes (offer_id : string) (change : Z) (s : t) : t :=
  let s1 :=
    set_accumulatedOffers
      (map (fun offer =>
              if String.eqb (id offer) offer_id
              then with_votes offer (js_add (votes offer) change) else offer)
           (accumulatedOffers s)) s in
  set_updateVote_pending (updateVote_pending s1 ++ [(offer_id, change)]) s1.

(** [next]: only logs. *)
Definition updateVote_next (offer_id : string) (change : Z) (s : t) : t := s.

(** [error]: the rollback. *)
Definition updateVote_error (offer_id : string) (change : Z) (s : t) : t :=
  set_accumulatedOffers
    (map (fun offer =>
            if String.eqb (id offer) offer_id
            then with_votes offer (js_sub (votes offer) change) else offer)
         (accumulatedOffers s)) s.

(** *** [upvote] and [downvote] *)

Definition upvote (offer_id : string) (s : t) : t :=
  let currentVote := find (fun v => String.eqb (offerId v) offer_id) (userVotesSignal s) in
  saveUserVotes
    match voteType <$> currentVote with
    | Some up => updateOfferVotes offer_id (-1) (removeVote offer_id s)
    | Some down => updateOfferVotes offer_id 2 (updateUserVote offer_id up s)
    | None => updateOfferVotes offer_id 1 (addUserVote offer_id up s)
    end.

Definition downvote (offer_id : string) (s : t) : t :=
  let currentVote := find (fun v => String.eqb (offerId v) offer_id) (userVotesSignal s) in
  saveUserVotes
    match voteType <$> currentVote with
    | Some down => updateOfferVotes offer_id 1 (removeVote offer_id s)
    | Some up => updateOfferVotes offer_id (-2) (updateUserVote offer_id down s)
    | None => updateOfferVotes offer_id (-1) (addUserVote offer_id down s)
    end.

(** *** Pagination

    [value()] of a resource in error state throws from Angular 20 on (the
    README names Angular 21+) and was [undefined] before; [value_throws]
    selects between the two, and the theorems below hold for both. *)

Section Pagination.
Variable value_throws : bool.

Definition resource_value (r : ResourceState) : outcome (option OffersPageResponse) :=
  match r with
  | Loading => Returned None
  | Resolved value => Returned (Some value)
  | Errored message =>
      if value_throws then Thrown (ResourceValueError message) else Returned None
  end.

(** [resource?.hasMore ?? true] *)
Definition hasMore (s : t) : outcome bool :=
  obind (resource_value (offersResource s)) (fun resource =>
    Returned (from_option OffersApiService.hasMore true resource)).

(** [currentPage.update(...)]: the resource's [params] change, so it goes
    back to loading and its [stream] calls [getOffers(page, pageSize)]. *)
Definition set_currentPage (page : nat) (s : t) : t :=
  {| currentPage := page; accumulatedOffers := accumulatedOffers s;
     userVotesSignal := userVotesSignal s; offersResource := Loading;
     localStorage := localStorage s;
     getOffers_pending := getOffers_pending s ++ [(page, pageSize)];
     updateVote_pending := updateVote_pending s |}.

Definition loadNextPage (s : t) : outcome t :=
  if negb (loading s) then
    obind (hasMore s) (fun more =>
      if more then Returned (set_currentPage (currentPage s + 1) s) else Returned s)
  else Returned s.

(** The answer to the oldest pending [getOffers] call: [tap] appends the
    page and the resource resolves, or the resource takes the error. *)
Definition getOffers_next (response : OffersPageResponse) (s : t) : t :=
  {| currentPage := currentPage s;
     accumulatedOffers := accumulatedOffers s ++ OffersApiService.offers response;
     userVotesSignal := userVotesSignal s; offersResource := Resolved response;
     localStorage := localStorage s;
     getOffers_pending := tail (getOffers_pending s);
     updateVote_pending := updateVote_pending s |}.

Definition getOffers_error (message : string) (s : t) : t :=
  {| currentPage := currentPage s; accumulatedOffers := accumulatedOffers s;
     userVotesSignal := userVotesSignal s; offersResource := Errored message;
     localStorage := localStorage s;
     getOffers_pending := tail (getOffers_pending s);
     updateVote_pending := updateVote_pending s |}.

(** *** The store as a transition system: calls from the presentation
    layer and completions of pending data-source calls. *)
Inductive event : Type :=
| LoadNextPage
| Upvote (offer_id : string)
| Downvote (offer_id : string)
| FetchSucceeded (response : OffersPageResponse)
| FetchFailed (message : string)
| VoteSynced (i : nat)
| VoteSyncFailed (i : nat).

(** [None]: the event cannot happen in [s].  A call that throws leaves
    the store as it was. *)
Definition step (s : t) (e : event) : option t :=
  match e with
  | LoadNextPage =>
      match loadNextPage s with
      | Returned s' => Some s'
      | _ => Some s
      end
  | Upvote offer_id => Some (upvote offer_id s)
  | Downvote offer_id => Some (downvote offer_id s)
  | FetchSucceeded response =>
      match getOffers_pending s with
      | _ :: _ => Some (getOffers_next response s)
      | [] => None
      end
  | FetchFailed message =>
      match getOffers_pending s with
      | _ :: _ => Some (getOffers_error message s)
      | [] => None
      end
  | VoteSynced i =>
      '(offer_id, change) ← updateVote_pending s !! i;
      Some (updateVote_next offer_id change
              (set_updateVote_pending (delete i (updateVote_pending s)) s))
  | VoteSyncFailed i =>
      '(offer_id, change) ← updateVote_pending s !! i;
      Some (updateVote_error offer_id change
              (set_updateVote_pending (delete i (updateVote_pending s)) s))
  end.

Fixpoint run (s : t) (trace : list event) : option t :=
  match trace with
  | [] => Some s
  | e :: trace' => s' ← step s e; run s' trace'
  end.

Inductive reachable : t -> Prop :=
| reachable_new stored s : new stored = Returned s -> reachable s
| reachable_step s e s' : reachable s -> step s e = Some s' -> reachable s'.
End Pagination.

End OffersStore.

(** ** The offer details page (offer-details-page.component.ts): the
    computed signals and vote handlers, over the route parameter [id] and
    the store. *)

Module OfferDetailsPage.

(** [offerId ? this.store.getOfferById(offerId) : undefined] *)
Definition offer (route_id : string) (s : OffersStore.t) : option Offer :=
  match route_id with
  | EmptyString => None
  | String _ _ => OffersStore.getOfferById route_id s
  end.

Definition userVote (route_id : string) (s : OffersStore.t) : Z :=
  match offer route_id s with
  | Some o => OffersStore.getUserVote (id o) s
  | None => 0
  end.

Definition onUpvote (route_id : string) (s : OffersStore.t) : OffersStore.t :=
  match offer route_id s with
  | Some o => OffersStore.upvote (id o) s
  | None => s
  end.

Definition onDownvote (route_id : string) (s : OffersStore.t) : OffersStore.t :=
  match offer route_id s with
  | Some o => OffersStore.downvote (id o) s
  | None => s
  end.

End OfferDetailsPage.

(** * Sample data: the offers of the repository's tests *)

Definition mockOffer : Offer :=
  {| id := "test-1"; title := "Test Offer"; description := "Test description";
     price := 100 # 1; currency := "USD"; imageUrl := "test.jpg"; votes := 10;
     category := "Electronics"; seller := "Test Seller"; condition := cond_new;
     createdAt := 0 |}.

Definition mockPage : OffersApiService.OffersPageResponse :=
  {| OffersApiService.offers := [mockOffer]; OffersApiService.total := 1;
     OffersApiService.page := 0; OffersApiService.pageSize := 10;
     OffersApiService.hasMore := false |}.

(** The store after its first page, [mockPage], has arrived. *)
Definition mockStore : OffersStore.t :=
  {| OffersStore.currentPage := 0; OffersStore.accumulatedOffers := [mockOffer];
     OffersStore.userVotesSignal := []; OffersStore.offersResource := OffersStore.Resolved mockPage;
     OffersStore.localStorage := None; OffersStore.getOffers_pending := [];
     OffersStore.updateVote_pending := [] |}.

(** The same store with its offer at 2^53 votes. *)
Definition bigStore : OffersStore.t :=
  OffersStore.set_accumulatedOffers [with_votes mockOffer max_exact] mockStore.

(** A store just constructed over an empty storage slot: page 0 is being
    fetched. *)
Definition freshStore : OffersStore.t :=
  {| OffersStore.currentPage := 0; OffersStore.accumulatedOffers := [];
     OffersStore.userVotesSignal := []; OffersStore.offersResource := OffersStore.Loading;
     OffersStore.localStorage := None;
     OffersStore.getOffers_pending := [(0%nat, OffersStore.pageSize)];
     OffersStore.updateVote_pending := [] |}.

(** The two offers of the data source's tests, as the HTTP GET delivers
    them. *)
Definition mockFetched : list Offer :=
  [ {| id := "test-1"; title := "Test Product 1"; description := "Test description";
       price := 9999 # 100; currency := "EUR"; imageUrl := "/test.jpg"; votes := 10;
       category := "electronics"; seller := "Test Seller"; condition := cond_like_new;
       createdAt := 0 |};
    {| id := "test-2"; title := "Test Product 2"; description := "Test description 2";
       price := 4999 # 100; currency := "EUR"; imageUrl := "/test2.jpg"; votes := 5;
       category := "home"; seller := "Test Seller 2"; condition := cond_good;
       createdAt := 0 |} ].

(** * The behaviour the specification describes, in its own words *)

Module Spec.

(** The toggle table of section 4.1: from the current vote state (+1, -1,
    or 0 for none) and the action, the new vote state and the delta applied
    to the offer's tally. *)
Definition toggle_table (current : Z) (action : VoteType) : Z * Z :=
  match current, action with
  | 0, up => (1, 1)
  | 0, down => (-1, -1)
  | 1, up => (0, -1)
  | -1, down => (0, 1)
  | 1, down => (-1, -2)
  | -1, up => (1, 2)
  | _, _ => (current, 0)
  end.

(** The delta applied to the tally of every accumulated offer with the
    given id. *)
Definition apply_delta (offer_id : string) (delta : Z) (l : list Offer) : list Offer :=
  map (fun o => if String.eqb (id o) offer_id then with_votes o (votes o + delta) else o) l.

(** The same delta added as the code adds it, and taken back as the code
    takes it back: in double arithmetic. *)
Definition add_delta (offer_id : string) (change : Z) (l : list Offer) : list Offer :=
  map (fun o => if String.eqb (id o) offer_id
                then with_votes o (js_add (votes o) change) else o) l.

Definition sub_delta (offer_id : string) (change : Z) (l : list Offer) : list Offer :=
  map (fun o => if String.eqb (id o) offer_id
                then with_votes o (js_sub (votes o) change) else o) l.

(** The tallies of the offers with the id stay [margin] below 2^53 in
    magnitude: adding up to [margin] to them is exact. *)
Definition tallies_within (margin : Z) (offer_id : string) (l : list Offer) : Prop :=
  Forall (fun o => id o = offer_id -> Z.abs (votes o) <= max_exact - margin) l.

(** Two records that differ at most in [votes]. *)
Definition same_but_votes (o o' : Offer) : Prop := with_votes o' (votes o) = o.

(** [upvote(offerId)] or [downvote(offerId)], by the direction of the vote. *)
Definition cast (action : VoteType) : string -> OffersStore.t -> OffersStore.t :=
  match action with up => OffersStore.upvote | down => OffersStore.downvote end.

(** Descending by [votes]. *)
Definition votes_descending : list Offer -> Prop :=
  StronglySorted (fun a b => votes b <= votes a).

(** The offers with tally [v], in the order of the list. *)
Definition with_tally (v : Z) (l : list Offer) : list Offer :=
  List.filter (fun o => votes o =? v) l.

(** The page fetch in flight, if any, is the one for the cursor, and there
    is one exactly while the store is loading. *)
Definition in_flight_matches (s : OffersStore.t) : Prop :=
  OffersStore.getOffers_pending s
  = if OffersStore.loading s
    then [(OffersStore.currentPage s, OffersStore.pageSize)] else [].

(** The cursor is at [page] or beyond, and beyond it while loading. *)
Definition resumes_after (page : nat) (s : OffersStore.t) : Prop :=
  in_flight_matches s ∧ (page <= OffersStore.currentPage s)%nat ∧
  (OffersStore.loading s = true -> (page < OffersStore.currentPage s)%nat).

End Spec.

(** * Notions used to state further properties of the code *)

Module Derived.

(** [offersWithVotes] of [getOffers]: the fetched list with cached totals
    laid over the tallies. *)
Definition offersWithVotes (fetched : list Offer) (api : OffersApiService.t) : list Offer :=
  map (fun offer =>
         with_votes offer (default (votes offer) (OffersApiService.votesCache api !! id offer)))
      fetched.

(** The response of [getOffers(page, pageSize)]. *)
Definition page_of (fetched : list Offer) (api : OffersApiService.t) (page pageSize : nat)
  : OffersApiService.OffersPageResponse :=
  (OffersApiService.getOffers page pageSize fetched api).2.

(** The data source after a run of [updateVote(offerId, delta)] calls. *)
Definition updateVotes (offerId : string) (deltas : list Z) (api : OffersApiService.t)
  : OffersApiService.t :=
  foldl (fun a d => (OffersApiService.updateVote offerId d a).1) api deltas.

(** An offer's tally without the current user's own vote. *)
Definition tally_without_own_vote (s : OffersStore.t) (o : Offer) : Z :=
  votes o - OffersStore.getUserVote (id o) s.

(** At most one recorded vote per offer. *)
Definition one_vote_per_offer (s : OffersStore.t) : Prop :=
  NoDup (map offerId (OffersStore.userVotesSignal s)).

(** The votes recorded for offers other than [offer_id]. *)
Definition votes_for_others (offer_id : string) (s : OffersStore.t) : list UserVote :=
  List.filter (fun v => negb (String.eqb (offerId v) offer_id)) (OffersStore.userVotesSignal s).

(** The last page has arrived: the resource holds a response without more. *)
Definition exhausted (s : OffersStore.t) : Prop :=
  ∃ r, OffersStore.offersResource s = OffersStore.Resolved r ∧
       OffersApiService.hasMore r = false.

(** [l'] holds the records of [l], position by position and up to their
    tallies, followed by further records. *)
Definition extends_offers (l l' : list Offer) : Prop :=
  ∃ kept added, l' = kept ++ added ∧ Forall2 Spec.same_but_votes l kept.

(** Scrolling through the feed against the data source: the answer to the
    fetch of page 0, then, [k] times, [loadNextPage()] and the answer to the
    fetch it starts, each answer being the data source's page. *)
Fixpoint scroll (fetched : list Offer) (api : OffersApiService.t) (k : nat)
  : list OffersStore.event :=
  match k with
  | O => [OffersStore.FetchSucceeded (page_of fetched api 0 OffersStore.pageSize)]
  | S k' =>
      scroll fetched api k'
      ++ [OffersStore.LoadNextPage;
          OffersStore.FetchSucceeded (page_of fetched api k OffersStore.pageSize)]
  end.

End Derived.

(** * Properties *)

(** ** [JSON.parse] reads back what [JSON.stringify] wrote *)

Module JSONFacts.
Import JSON.

Lemma append_cons x (a b : string) : String x a +:+ b = String x (a +:+ b).
Proof. reflexivity. Qed.

Lemma append_nil (b : string) : EmptyString +:+ b = b.
Proof. reflexivity. Qed.

Lemma append_assoc (a b c : string) : (a +:+ b) +:+ c = a +:+ (b +:+ c).
Proof. induction a as [|x a IH]; [done|]. by rewrite !append_cons, IH. Qed.

Lemma length_append (a b : string) :
  String.length (a +:+ b) = (String.length a + String.length b)%nat.
Proof. induction a as [|x a IH]; [done|]. rewrite append_cons. simpl. by rewrite IH. Qed.

Ltac norm_append := repeat (rewrite ?append_assoc, ?append_cons, ?append_nil).

(** One escaped character is read back as that character. *)
Lemma string_chars_escape_char c rest :
  string_chars (escape_char c +:+ rest) = pmap (String c) (string_chars rest).
Proof. destruct c as [[] [] [] [] [] [] [] []]; reflexivity. Qed.

Lemma string_chars_escape s rest :
  string_chars (escape s +:+ String dquote rest) = Parsed s true rest.
Proof.
  induction s as [|c s IH]; [reflexivity|].
  change (escape (String c s)) with (escape_char c +:+ escape s).
  by rewrite append_assoc, string_chars_escape_char, IH.
Qed.

(** The parser's equations on the first character of the input. *)
Lemma skip_ws_stop c X : is_ws c = false -> skip_ws (String c X) = String c X.
Proof. intros H. simpl. by rewrite H. Qed.

Lemma parse_value_string f X :
  parse_value (S f) (String dquote X) = pmap JString (string_chars X).
Proof. reflexivity. Qed.

Lemma parse_value_object f X :
  parse_value (S f) (String "{" (String dquote X))
  = pmap JObject (parse_members f (String dquote X)).
Proof. reflexivity. Qed.

Lemma parse_value_array f X :
  parse_value (S f) (String "[" (String "{" X))
  = pmap JArray (parse_elements f (String "{" X)).
Proof. reflexivity. Qed.

Lemma parse_value_vote_number f vt X :
  parse_value (S f) (pretty (VoteType_value vt) +:+ String "}" X)
  = Parsed (JNumber (VoteType_value vt)) true (String "}" X).
Proof. destruct vt; reflexivity. Qed.

Lemma parse_members_key f X :
  parse_members (S f) (String dquote X)
  = pbind (string_chars X) (fun k r =>
      match skip_ws r with
      | String ":" r1 =>
          pbind (parse_value f r1) (fun v r2 =>
            match skip_ws r2 with
            | String "," r3 => pmap (cons (k, v)) (parse_members f r3)
            | String "}" r3 => Parsed [(k, v)] true r3
            | _ => SyntaxError
            end)
      | _ => SyntaxError
      end).
Proof. reflexivity. Qed.

Lemma parse_elements_unfold f X :
  parse_elements (S f) X
  = pbind (parse_value f X) (fun v r =>
      match skip_ws r with
      | String "," r' => pmap (cons v) (parse_elements f r')
      | String "]" r' => Parsed [v] true r'
      | _ => SyntaxError
      end).
Proof. reflexivity. Qed.

Ltac parse_step :=
  first [ rewrite string_chars_escape
        | rewrite parse_value_vote_number
        | rewrite parse_value_string
        | rewrite parse_members_key
        | rewrite skip_ws_stop by reflexivity ];
  cbv beta iota; cbn [pbind pmap andb].

(** One vote object, followed by anything. *)
Lemma parse_vote f v rest :
  parse_value (S (S (S (S f)))) (vote_text v +:+ rest)
  = Parsed (UserVote_to_json v) true rest.
Proof.
  destruct v as [i vt]. unfold vote_text, UserVote_to_json.
  cbn [stringify map join fst snd offerId voteType].
  unfold quote. norm_append. rewrite parse_value_object.
  repeat parse_step. reflexivity.
Qed.

Lemma vote_text_head v : ∃ X, vote_text v = String "{" (String dquote X).
Proof.
  destruct v as [i vt]. unfold vote_text, UserVote_to_json.
  cbn [stringify map join fst snd offerId voteType]. unfold quote. norm_append. eauto.
Qed.

Lemma stringify_votes votes :
  stringify (UserVotes_to_json votes) = String "[" (join (map vote_text votes) +:+ "]").
Proof. unfold UserVotes_to_json. cbn [stringify]. by rewrite map_map. Qed.

Lemma join_cons_cons (p p' : string) ps :
  join (p :: p' :: ps) = p +:+ "," +:+ join (p' :: ps).
Proof. reflexivity. Qed.

(** A non-empty run of vote objects up to the closing bracket: one unit of
    fuel per element on top of what one object needs. *)
Lemma parse_votes g v votes rest :
  parse_elements (S (S (S (S (S (length votes + g))))))
    (join (map vote_text (v :: votes)) +:+ String "]" rest)
  = Parsed (map UserVote_to_json (v :: votes)) true rest.
Proof.
  revert v. induction votes as [|w votes IH]; intros v.
  - cbn [map join]. rewrite parse_elements_unfold, parse_vote.
    cbn [pbind]. repeat parse_step. reflexivity.
  - cbn [map]. rewrite join_cons_cons. norm_append.
    rewrite parse_elements_unfold. cbn [length Nat.add]. rewrite parse_vote.
    cbn [pbind]. repeat parse_step.
    change (vote_text w :: map vote_text votes) with (map vote_text (w :: votes)).
    rewrite IH. reflexivity.
Qed.

Lemma length_join_votes votes :
  (length votes <= String.length (join (map vote_text votes)))%nat.
Proof.
  induction votes as [|v votes IH]; [done|].
  destruct (vote_text_head v) as [X HX]. destruct votes as [|w votes].
  - cbn [map join]. rewrite HX. simpl. lia.
  - cbn [map]. rewrite join_cons_cons, length_append, append_cons, append_nil, HX.
    cbn [String.length length map] in *. lia.
Qed.

(** [JSON.parse(JSON.stringify(votes))] returns, with the same votes; the
    fuel [JSON_parse] starts with is enough. *)
Lemma JSON_parse_stringify_votes votes :
  JSON_parse (stringify (UserVotes_to_json votes)) = Returned (UserVotes_to_json votes).
Proof.
  destruct votes as [|v votes]; [reflexivity|].
  rewrite stringify_votes. unfold JSON_parse.
  pose proof (length_join_votes (v :: votes)) as Hlen.
  set (text := join (map vote_text (v :: votes))) in *.
  assert (∃ g, (2 * String.length (String "[" (text +:+ "]")) + 2
                = S (S (S (S (S (S (length votes + g)))))))%nat) as [g ->].
  { exists (2 * String.length (String "[" (text +:+ "]")) + 2 - 6 - length votes)%nat.
    cbn [String.length]. rewrite length_append. simpl in *. lia. }
  destruct (vote_text_head v) as [X HX].
  assert (Ht : ∃ Y, text +:+ "]" = String "{" Y).
  { unfold text. destruct votes; cbn [map join]; rewrite HX; norm_append; eauto. }
  destruct Ht as [Y HY]. rewrite HY, parse_value_array, <- HY.
  unfold text. rewrite parse_votes. reflexivity.
Qed.

(** Sample texts: what [JSON.parse] accepts and what it rejects. *)
Example JSON_parse_samples :
  JSON_parse (q "[{'offerId':'test-1','voteType':-1}]")
  = Returned (JArray [JObject [("offerId", JString "test-1"); ("voteType", JNumber (-1))]]) ∧
  JSON_parse " [ 1 , true , null ] " = Returned (JArray [JNumber 1; JBool true; JNull]) ∧
  JSON_parse "{" = Thrown JSONSyntaxError ∧
  JSON_parse "[1,]" = Thrown JSONSyntaxError ∧
  JSON_parse "01" = Thrown JSONSyntaxError ∧
  JSON_parse "not json" = Thrown JSONSyntaxError ∧
  JSON_parse (q "{'a':1} x") = Thrown JSONSyntaxError ∧
  JSON_parse "1.5" = OutsideModel.
Proof. by vm_compute. Qed.

Lemma UserVote_of_to_json v : UserVote_of_json (UserVote_to_json v) = Some v.
Proof. by destruct v as [i []]. Qed.

Lemma UserVotes_of_to_json votes : UserVotes_of_json (UserVotes_to_json votes) = Some votes.
Proof.
  unfold UserVotes_of_json, UserVotes_to_json.
  induction votes as [|v votes IH]; [done|].
  cbn [map mapM]. rewrite UserVote_of_to_json. simpl. by rewrite IH.
Qed.

End JSONFacts.

(** ** [Array_sort] with a comparator [key b - key a]: descending by key,
    a permutation, equal keys in their original order; and it is the only
    list with these three properties. *)

Section SortByKey.
Context {A : Type} (key : A -> Z).
Local Abbreviation cmp := (fun a b : A => key b - key a).
Local Abbreviation desc := (fun a b : A => key b <= key a).
Local Abbreviation keyed v := (List.filter (fun a : A => key a =? v)).

Lemma sort_insert_perm x l : sort_insert cmp x l ≡ₚ x :: l.
Proof.
  induction l as [|y l IH]; simpl; [done|].
  destruct (key y - key x <=? 0); [done|]. rewrite IH. apply Permutation_swap.
Qed.

Lemma Array_sort_perm l : Array_sort cmp l ≡ₚ l.
Proof.
  induction l as [|x l IH]; simpl; [done|].
  rewrite sort_insert_perm. by f_equiv.
Qed.

Lemma sort_insert_sorted x l :
  StronglySorted desc l -> StronglySorted desc (sort_insert cmp x l).
Proof.
  induction l as [|y l IH]; simpl; intros Hl.
  - repeat constructor.
  - apply StronglySorted_cons in Hl as [Hy Hl].
    destruct (Z.leb_spec (key y - key x) 0) as [Hle|Hgt].
    + apply StronglySorted_cons. split; [|by apply StronglySorted_cons].
      constructor; [lia|]. eapply Forall_impl; [exact Hy|]. simpl. lia.
    + apply StronglySorted_cons. split; [|by apply IH].
      rewrite sort_insert_perm. constructor; [lia | done].
Qed.

Lemma Array_sort_sorted l : StronglySorted desc (Array_sort cmp l).
Proof.
  induction l as [|x l IH]; simpl; [constructor|]. by apply sort_insert_sorted.
Qed.

Lemma sort_insert_keyed v x l : keyed v (sort_insert cmp x l) = keyed v (x :: l).
Proof.
  induction l as [|y l IH]; [done|]. simpl.
  destruct (Z.leb_spec (key y - key x) 0) as [Hle|Hgt]; [done|].
  simpl in *. rewrite IH.
  destruct (Z.eqb_spec (key x) v), (Z.eqb_spec (key y) v); try done. lia.
Qed.

Lemma Array_sort_keyed v l : keyed v (Array_sort cmp l) = keyed v l.
Proof.
  induction l as [|x l IH]; [done|]. simpl. rewrite sort_insert_keyed.
  simpl. by rewrite IH.
Qed.

Lemma keyed_elem v a l : a ∈ keyed v l -> a ∈ l ∧ key a = v.
Proof.
  rewrite list_elem_of_In, filter_In, <- list_elem_of_In.
  intros [? ?%Z.eqb_eq]. done.
Qed.

(** Two descending lists with the same elements per key, in the same
    order per key, are equal. *)
Lemma sorted_keyed_unique l1 l2 :
  StronglySorted desc l1 -> StronglySorted desc l2 ->
  (∀ v, keyed v l1 = keyed v l2) -> l1 = l2.
Proof.
  revert l2. induction l1 as [|x l1 IH]; intros l2 H1 H2 Hk.
  - destruct l2 as [|y l2]; [done|]. specialize (Hk (key y)).
    simpl in Hk. by rewrite Z.eqb_refl in Hk.
  - destruct l2 as [|y l2].
    { specialize (Hk (key x)). simpl in Hk. by rewrite Z.eqb_refl in Hk. }
    apply StronglySorted_cons in H1 as [Hx H1], H2 as [Hy H2].
    assert (Hxy : key x = key y).
    { assert (x ∈ keyed (key x) (y :: l2)) as [Hin _]%keyed_elem.
      { rewrite <- Hk. simpl. rewrite Z.eqb_refl. left. }
      assert (y ∈ keyed (key y) (x :: l1)) as [Hin' _]%keyed_elem.
      { rewrite Hk. simpl. rewrite Z.eqb_refl. left. }
      apply elem_of_cons in Hin as [->|Hin]; [done|].
      apply elem_of_cons in Hin' as [->|Hin']; [done|].
      rewrite Forall_forall in Hx, Hy. specialize (Hx _ Hin'). specialize (Hy _ Hin).
      simpl in *. lia. }
    assert (x = y) as <-.
    { specialize (Hk (key x)). simpl in Hk.
      rewrite <- Hxy, Z.eqb_refl in Hk. congruence. }
    f_equal. apply IH; [done..|]. intros v. specialize (Hk v).
    simpl in Hk. destruct (key x =? v); congruence.
Qed.

Lemma Array_sort_unique l l' :
  StronglySorted desc l' -> (∀ v, keyed v l' = keyed v l) -> l' = Array_sort cmp l.
Proof.
  intros Hs Hk. apply sorted_keyed_unique; [done | apply Array_sort_sorted |].
  intros v. by rewrite Hk, Array_sort_keyed.
Qed.
End SortByKey.

(** ** Sums of integers that the doubles hold exactly *)

Lemma round_double_exact z : Z.abs z <= max_exact -> round_double z = z.
Proof.
  intros H. unfold round_double. by apply Z.leb_le in H as ->.
Qed.

Lemma js_add_exact a b : Z.abs (a + b) <= max_exact -> js_add a b = a + b.
Proof. apply round_double_exact. Qed.

Lemma js_sub_exact a b : Z.abs (a - b) <= max_exact -> js_sub a b = a - b.
Proof. apply round_double_exact. Qed.

(** At 2^53 the next integer is lost: [2^53 + 1] is [2^53], and what was
    added cannot be taken back. *)
Example js_add_rounds :
  js_add max_exact 1 = max_exact ∧ js_sub (js_add max_exact 1) 1 = max_exact - 1 ∧
  js_add (max_exact - 1) 2 = max_exact ∧ js_add (max_exact + 2) 1 = max_exact + 4 ∧
  js_add (- max_exact) (-1) = - max_exact.
Proof. by vm_compute. Qed.

(** ** The data source's vote update *)

Module OffersApiServiceFacts.
Import OffersApiService.

(** The total [updateVote] returns is the double sum of the last-known
    total and the delta. *)
Lemma updateVote_sum offerId delta api :
  (updateVote offerId delta api).2 = js_add (lastKnownTotal api offerId) delta.
Proof.
  unfold updateVote, lastKnownTotal. simpl.
  destruct (votesCache api !! offerId); [done|].
  destruct (allOffers api) as [l|]; simpl; [|done]. by destruct (find _ l).
Qed.

Lemma lastKnownTotal_unknown api offerId :
  known api offerId ∨ lastKnownTotal api offerId = 0.
Proof.
  unfold known, lastKnownTotal.
  destruct (votesCache api !! offerId) as [v|] eqn:Ec; [left; left; eauto|].
  destruct (allOffers api) as [l|] eqn:Ea; [|by right].
  destruct (find _ l) as [o|] eqn:Ef; [|by right].
  apply find_some in Ef as [Hin Hid]. apply String.eqb_eq in Hid.
  left. right. exists l, o. by rewrite list_elem_of_In.
Qed.

(** C9, as the code has it.  [updateVote] always returns, and the total
    it returns is then the data source's last-known total for the id.
    Whenever the last-known total plus the delta is at most 2^53 in
    magnitude, the returned total is exactly that sum, and for an id the
    data source does not know (never cached, not in the fetched list) it is
    the delta itself. *)
Theorem updateVote_adds_to_last_known offerId delta api :
  lastKnownTotal (updateVote offerId delta api).1 offerId
  = (updateVote offerId delta api).2 ∧
  (Z.abs (lastKnownTotal api offerId + delta) <= max_exact ->
   (updateVote offerId delta api).2 = lastKnownTotal api offerId + delta ∧
   (known api offerId ∨ (updateVote offerId delta api).2 = delta)).
Proof.
  split.
  - unfold updateVote, lastKnownTotal at 1. simpl. by rewrite lookup_insert_eq.
  - intros Hb. rewrite updateVote_sum, js_add_exact by done. split; [done|].
    destruct (lastKnownTotal_unknown api offerId) as [Hk|H0]; [by left|right].
    rewrite H0. lia.
Qed.

Lemma updateVote_adds_to_last_known_witness :
  lastKnownTotal (updateVote "test-1" 1 (getOffers 0 1 [mockOffer] init).1).1 "test-1"
  = (updateVote "test-1" 1 (getOffers 0 1 [mockOffer] init).1).2 ∧
  (updateVote "test-1" 1 (getOffers 0 1 [mockOffer] init).1).2
  = lastKnownTotal (getOffers 0 1 [mockOffer] init).1 "test-1" + 1 ∧
  (known (getOffers 0 1 [mockOffer] init).1 "test-1" ∨
   (updateVote "test-1" 1 (getOffers 0 1 [mockOffer] init).1).2 = 1).
Proof.
  destruct (updateVote_adds_to_last_known "test-1" 1 (getOffers 0 1 [mockOffer] init).1)
    as [Hlast Hsum].
  split; [exact Hlast|]. apply Hsum. vm_compute. discriminate.
Defined.

(** C9, as the claim has it, fails at 2^53: after [updateVote('big', 2^53)]
    on a data source that has never seen [big], the last-known total is
    2^53, and [updateVote('big', 1)] returns 2^53 again, not the last-known
    total plus the delta. *)
Lemma updateVote_loses_delta_at_2_53 :
  lastKnownTotal (updateVote "big" max_exact init).1 "big" = max_exact ∧
  (updateVote "big" 1 (updateVote "big" max_exact init).1).2 = max_exact ∧
  (updateVote "big" 1 (updateVote "big" max_exact init).1).2
  ≠ lastKnownTotal (updateVote "big" max_exact init).1 "big" + 1.
Proof. by vm_compute. Qed.

(** The data source's tests: a vote for an id it has never seen yields the
    delta; after the list with [test-1] at 10 was fetched, three updates
    +1, +1, -1 yield 11. *)
Example updateVote_on_mock :
  (updateVote "non-existent" 1 init).2 = 1 ∧
  let api0 := (getOffers 0 1 [mockOffer] init).1 in
  let api1 := (updateVote "test-1" 1 api0).1 in
  let api2 := (updateVote "test-1" 1 api1).1 in
  (updateVote "test-1" (-1) api2).2 = 11.
Proof. by vm_compute. Qed.

End OffersApiServiceFacts.

(** ** The store *)

Module OffersStoreFacts.
Import OffersStore Spec.

Implicit Types (s : OffersStore.t) (offer_id : string).

(** *** Lookup in the vote list after each of the three updates *)

Lemma find_removed offer_id (l : list UserVote) :
  find (fun v => String.eqb (offerId v) offer_id)
       (List.filter (fun v => negb (String.eqb (offerId v) offer_id)) l) = None.
Proof.
  induction l as [|v l IH]; [done|]. simpl.
  destruct (String.eqb (offerId v) offer_id) eqn:E; simpl; [done|]. by rewrite E.
Qed.

Lemma find_updated offer_id (l : list UserVote) vt :
  find (fun v => String.eqb (offerId v) offer_id)
       (map (fun v => if String.eqb (offerId v) offer_id
                      then mkUserVote (offerId v) vt else v) l)
  = (fun v => mkUserVote (offerId v) vt)
      <$> find (fun v => String.eqb (offerId v) offer_id) l.
Proof.
  induction l as [|v l IH]; [done|]. simpl.
  destruct (String.eqb (offerId v) offer_id) eqn:E; simpl; by rewrite E.
Qed.

Lemma find_added offer_id (l : list UserVote) vt :
  find (fun v => String.eqb (offerId v) offer_id) l = None ->
  find (fun v => String.eqb (offerId v) offer_id) (l ++ [mkUserVote offer_id vt])
  = Some (mkUserVote offer_id vt).
Proof.
  induction l as [|v l IH]; simpl.
  - intros _. by rewrite String.eqb_refl.
  - destruct (String.eqb (offerId v) offer_id); [done|]. exact IH.
Qed.

(** *** The two maps of [updateOfferVotes] *)

Lemma with_votes_restore (o : Offer) (v : Z) : with_votes (with_votes o v) (votes o) = o.
Proof. by destruct o. Qed.

(** Within the exact range the code's sum is the integer sum, and the
    rollback returns the tallies. *)
Lemma add_delta_exact offer_id d (offers : list Offer) :
  Forall (fun o => id o = offer_id -> Z.abs (votes o + d) <= max_exact) offers ->
  add_delta offer_id d offers = apply_delta offer_id d offers.
Proof.
  unfold add_delta, apply_delta. induction 1 as [|o offers Ho _ IH]; [done|].
  simpl. rewrite IH. f_equal.
  destruct (String.eqb_spec (id o) offer_id) as [He|]; [|done].
  by rewrite js_add_exact by auto.
Qed.

Lemma tallies_within_sum m offer_id d (offers : list Offer) :
  Z.abs d <= m -> tallies_within m offer_id offers ->
  Forall (fun o => id o = offer_id -> Z.abs (votes o + d) <= max_exact) offers.
Proof.
  intros Hd Hw. eapply Forall_impl; [exact Hw|]. intros o Ho He. specialize (Ho He). simpl in Ho. lia.
Qed.

Lemma sub_add_delta m offer_id d (offers : list Offer) :
  Z.abs d <= m -> tallies_within m offer_id offers ->
  sub_delta offer_id d (add_delta offer_id d offers) = offers.
Proof.
  intros Hd. unfold sub_delta, add_delta, tallies_within.
  induction 1 as [|o offers Ho _ IH]; [done|]. simpl. rewrite IH. f_equal.
  destruct (String.eqb_spec (id o) offer_id) as [He|Hne]; simpl.
  - apply String.eqb_eq in He as Heq. rewrite Heq. specialize (Ho He). simpl.
    rewrite (js_add_exact (votes o) d) by lia.
    rewrite js_sub_exact by lia.
    replace (votes o + d - d) with (votes o) by lia. apply with_votes_restore.
  - by apply String.eqb_neq in Hne as ->.
Qed.

Lemma add_delta_absent offer_id d (offers : list Offer) :
  Forall (fun o => id o ≠ offer_id) offers -> add_delta offer_id d offers = offers.
Proof.
  unfold add_delta. induction 1 as [|o offers Ho _ IH]; [done|]. simpl. rewrite IH.
  by apply String.eqb_neq in Ho as ->.
Qed.

Lemma toggle_delta_bound prior action : Z.abs (toggle_table prior action).2 <= 2.
Proof.
  destruct action;
    destruct prior as [|[| |]|[| |]]; simpl; lia.
Qed.

Lemma find_apply_delta offer_id d (offers : list Offer) :
  find (fun o => String.eqb (id o) offer_id) (apply_delta offer_id d offers)
  = (fun o => with_votes o (votes o + d)) <$> find (fun o => String.eqb (id o) offer_id) offers.
Proof.
  unfold apply_delta. induction offers as [|o offers IH]; [done|]. simpl.
  destruct (String.eqb (id o) offer_id) eqn:E; simpl; by rewrite E.
Qed.

(** *** One vote call, in terms of the toggle table: the vote list changes,
    every tally for the id moves by the delta, the list is persisted, and one
    [updateVote] call is pending. *)
Lemma cast_effect action offer_id s :
  getUserVote offer_id (cast action offer_id s)
  = (toggle_table (getUserVote offer_id s) action).1 ∧
  accumulatedOffers (cast action offer_id s)
  = add_delta offer_id (toggle_table (getUserVote offer_id s) action).2
      (accumulatedOffers s) ∧
  updateVote_pending (cast action offer_id s)
  = updateVote_pending s ++ [(offer_id, (toggle_table (getUserVote offer_id s) action).2)] ∧
  localStorage (cast action offer_id s)
  = Some (JSON.stringify (UserVotes_to_json (userVotesSignal (cast action offer_id s)))) ∧
  currentPage (cast action offer_id s) = currentPage s ∧
  offersResource (cast action offer_id s) = offersResource s ∧
  getOffers_pending (cast action offer_id s) = getOffers_pending s.
Proof.
  destruct action; unfold cast, upvote, downvote, getUserVote; simpl;
    destruct (find _ (userVotesSignal s)) as [[i []]|] eqn:E; simpl;
    rewrite ?find_removed, ?find_updated, ?E; simpl;
    try (rewrite (find_added _ _ _ E); simpl); done.
Qed.

Lemma getUserVote_range offer_id s :
  getUserVote offer_id s = 0 ∨ getUserVote offer_id s = 1 ∨ getUserVote offer_id s = -1.
Proof.
  unfold getUserVote. destruct (find _ _) as [[i []]|]; simpl; auto.
Qed.

(** [getUserVote] is 0 exactly when the list holds no record for the id. *)
Lemma getUserVote_none offer_id s :
  getUserVote offer_id s = 0 ↔ Forall (fun v => offerId v ≠ offer_id) (userVotesSignal s).
Proof.
  unfold getUserVote. induction (userVotesSignal s) as [|v l IH]; simpl.
  - split; [constructor | done].
  - destruct (String.eqb_spec (offerId v) offer_id) as [He|Hne].
    + split; [by destruct (voteType v) | by intros [? _]%Forall_cons].
    + rewrite IH. split; [by constructor | by intros [_ ?]%Forall_cons].
Qed.

(** A vote on an id without a recorded vote appends the record. *)
Lemma upvote_first offer_id s :
  getUserVote offer_id s = 0 ->
  userVotesSignal (upvote offer_id s) = userVotesSignal s ++ [mkUserVote offer_id up].
Proof.
  unfold getUserVote, upvote.
  by destruct (find _ (userVotesSignal s)) as [[i []]|].
Qed.

(** *** Pagination: what [loadNextPage] can do, and the invariants of the
    transition system *)

Section PaginationFacts.
Variable value_throws : bool.

Lemma loadNextPage_cases s :
  (loadNextPage value_throws s = Returned s ∧
     (loading s = true ∨ hasMore value_throws s = Returned false)) ∨
  (loadNextPage value_throws s = Returned (set_currentPage (currentPage s + 1) s) ∧
     loading s = false ∧ hasMore value_throws s = Returned true) ∨
  (∃ message, loadNextPage value_throws s = Thrown (ResourceValueError message) ∧
     error s = Some message ∧ value_throws = true).
Proof.
  unfold loadNextPage, hasMore, resource_value, loading, error.
  destruct (offersResource s) as [|r|m]; simpl; auto.
  - destruct (OffersApiService.hasMore r); auto.
  - destruct value_throws; simpl; eauto 10.
Qed.

Lemma vote_keeps_pagination action offer_id s :
  currentPage (cast action offer_id s) = currentPage s ∧
  loading (cast action offer_id s) = loading s ∧
  getOffers_pending (cast action offer_id s) = getOffers_pending s.
Proof.
  destruct (cast_effect action offer_id s) as (_ & _ & _ & _ & Hc & Hr & Hg).
  unfold loading. by rewrite Hc, Hr, Hg.
Qed.

Lemma step_in_flight s e s' :
  in_flight_matches s -> step value_throws s e = Some s' -> in_flight_matches s'.
Proof.
  unfold in_flight_matches. intros Hs Hstep. destruct e; simpl in Hstep.
  - destruct (loadNextPage_cases s) as [[H _]|[[H [Hl _]]|[x [H _]]]];
      rewrite H in Hstep; simplify_eq; try done.
    simpl. rewrite Hl in Hs. by rewrite Hs.
  - simplify_eq. destruct (vote_keeps_pagination up offer_id s) as (H1 & H2 & H3).
    cbn [cast] in *. by rewrite H1, H2, H3.
  - simplify_eq. destruct (vote_keeps_pagination down offer_id s) as (H1 & H2 & H3).
    cbn [cast] in *. by rewrite H1, H2, H3.
  - destruct (getOffers_pending s) eqn:E; simplify_eq. simpl. rewrite E.
    destruct (loading s); by simplify_eq.
  - destruct (getOffers_pending s) eqn:E; simplify_eq. simpl. rewrite E.
    destruct (loading s); by simplify_eq.
  - destruct (updateVote_pending s !! i) as [[? ?]|]; simpl in Hstep; by simplify_eq.
  - destruct (updateVote_pending s !! i) as [[? ?]|]; simpl in Hstep; by simplify_eq.
Qed.

Lemma reachable_in_flight s : reachable value_throws s -> in_flight_matches s.
Proof.
  induction 1 as [stored s Hnew|s e s' _ IH Hstep].
  - unfold new in Hnew. destruct (loadUserVotes stored); simpl in Hnew; simplify_eq. done.
  - by eapply step_in_flight.
Qed.

Lemma step_resumes_after page s e s' :
  resumes_after page s -> step value_throws s e = Some s' -> resumes_after page s'.
Proof.
  intros (Hs & Hle & Hlt) Hstep. split; [by eapply step_in_flight|].
  destruct e; simpl in Hstep.
  - destruct (loadNextPage_cases s) as [[H _]|[[H [Hl _]]|[x [H _]]]];
      rewrite H in Hstep; simplify_eq; try done.
    simpl. split; [lia|]. intros _. lia.
  - simplify_eq. destruct (vote_keeps_pagination up offer_id s) as (H1 & H2 & _).
    cbn [cast] in *. by rewrite H1, H2.
  - simplify_eq. destruct (vote_keeps_pagination down offer_id s) as (H1 & H2 & _).
    cbn [cast] in *. by rewrite H1, H2.
  - destruct (getOffers_pending s); by simplify_eq.
  - destruct (getOffers_pending s); by simplify_eq.
  - destruct (updateVote_pending s !! i) as [[? ?]|]; simpl in Hstep; by simplify_eq.
  - destruct (updateVote_pending s !! i) as [[? ?]|]; simpl in Hstep; by simplify_eq.
Qed.

Lemma run_resumes_after page trace : ∀ s s',
  resumes_after page s -> run value_throws s trace = Some s' -> resumes_after page s'.
Proof.
  induction trace as [|e trace IH]; intros s s' Hs Hrun; simpl in Hrun.
  - by simplify_eq.
  - destruct (step value_throws s e) as [s1|] eqn:E; [|done]. simpl in Hrun.
    eapply IH; [|done]. by eapply step_resumes_after.
Qed.

Lemma resumes_after_requests page s req :
  resumes_after page s -> req ∈ getOffers_pending s -> (page < req.1)%nat.
Proof.
  intros (Hs & _ & Hlt). unfold in_flight_matches in Hs. rewrite Hs.
  destruct (loading s); [|by intros ?%elem_of_nil].
  intros ->%list_elem_of_singleton. simpl. by apply Hlt.
Qed.

(** After the fetch of the cursor's page has failed, no run of the store
    asks for that page again. *)
Lemma failed_page_never_requested message s trace s' req :
  in_flight_matches s -> loading s = true ->
  run value_throws (getOffers_error message s) trace = Some s' ->
  req ∈ getOffers_pending s' -> (currentPage s < req.1)%nat.
Proof.
  intros Hs Hl Hrun. eapply resumes_after_requests, run_resumes_after; [|exact Hrun].
  unfold resumes_after, in_flight_matches in *. rewrite Hl in Hs. simpl. rewrite Hs.
  repeat split; [lia | done].
Qed.
End PaginationFacts.

(** *** Persisting and loading the vote list *)

Lemma loadUserVotes_stringify votes :
  loadUserVotes (Some (JSON.stringify (UserVotes_to_json votes))) = Returned votes.
Proof.
  unfold loadUserVotes.
  destruct (JSON.stringify (UserVotes_to_json votes)) as [|c rest] eqn:E.
  { by rewrite JSONFacts.stringify_votes in E. }
  rewrite <- E, JSONFacts.JSON_parse_stringify_votes. cbn [obind].
  by rewrite JSONFacts.UserVotes_of_to_json.
Qed.

(** The [error] callback and [saveUserVotes] write different fields, so a
    data source that fails at once (inside [updateOfferVotes], before the
    vote is saved) leaves the store as one that fails later. *)
Lemma rollback_before_save offer_id change s :
  saveUserVotes (updateVote_error offer_id change s)
  = updateVote_error offer_id change (saveUserVotes s).
Proof. reflexivity. Qed.

(** ** The toggle table *)

(** C2, as the code has it.  For every offer id and every prior vote
    state, [upvote] and [downvote] follow the six rows of the toggle table:
    the prior state is one of 0, +1, -1; the state read back afterwards and
    the delta are the table's; and the data source is called with that
    delta.  Whenever the tallies of the offers with the id are at most
    2^53 - 2 in magnitude, the delta is added to them exactly. *)
Theorem vote_follows_toggle_table action offer_id s :
  (getUserVote offer_id s = 0 ∨ getUserVote offer_id s = 1 ∨ getUserVote offer_id s = -1) ∧
  getUserVote offer_id (cast action offer_id s)
  = (toggle_table (getUserVote offer_id s) action).1 ∧
  updateVote_pending (cast action offer_id s)
  = updateVote_pending s ++ [(offer_id, (toggle_table (getUserVote offer_id s) action).2)] ∧
  (tallies_within 2 offer_id (accumulatedOffers s) ->
   accumulatedOffers (cast action offer_id s)
   = apply_delta offer_id (toggle_table (getUserVote offer_id s) action).2
       (accumulatedOffers s) ∧
   getOfferById offer_id (cast action offer_id s)
   = (fun o => with_votes o (votes o + (toggle_table (getUserVote offer_id s) action).2))
       <$> getOfferById offer_id s).
Proof.
  destruct (cast_effect action offer_id s) as (Hv & Ha & Hp & _).
  split; [apply getUserVote_range|]. split; [done|]. split; [done|].
  intros Hsafe.
  rewrite add_delta_exact in Ha
    by (eapply tallies_within_sum; [apply toggle_delta_bound | done]).
  split; [done|]. unfold getOfferById. rewrite Ha. apply find_apply_delta.
Qed.

Lemma vote_follows_toggle_table_witness :
  tallies_within 2 "test-1" (accumulatedOffers mockStore) ∧
  getUserVote "test-1" (cast up "test-1" mockStore)
  = (toggle_table (getUserVote "test-1" mockStore) up).1 ∧
  updateVote_pending (cast up "test-1" mockStore)
  = updateVote_pending mockStore
    ++ [("test-1", (toggle_table (getUserVote "test-1" mockStore) up).2)] ∧
  accumulatedOffers (cast up "test-1" mockStore)
  = apply_delta "test-1" (toggle_table (getUserVote "test-1" mockStore) up).2
      (accumulatedOffers mockStore) ∧
  getOfferById "test-1" (cast up "test-1" mockStore)
  = (fun o => with_votes o (votes o + (toggle_table (getUserVote "test-1" mockStore) up).2))
      <$> getOfferById "test-1" mockStore.
Proof.
  assert (Hsafe : tallies_within 2 "test-1" (accumulatedOffers mockStore)).
  { constructor; [|constructor]. intros _. vm_compute. discriminate. }
  destruct (vote_follows_toggle_table up "test-1" mockStore) as (_ & Hv & Hp & Hsum).
  split; [exact Hsafe|]. split; [exact Hv|]. split; [exact Hp|]. exact (Hsum Hsafe).
Defined.

(** C2, as the claim has it, fails at 2^53: a first upvote of the offer at
    2^53 votes records the +1 vote and calls the data source with delta +1,
    and leaves the tally at 2^53. *)
Lemma upvote_loses_delta_at_2_53 :
  votes <$> getOfferById "test-1" bigStore = Some max_exact ∧
  getUserVote "test-1" bigStore = 0 ∧
  getUserVote "test-1" (upvote "test-1" bigStore) = 1 ∧
  updateVote_pending (upvote "test-1" bigStore) = [("test-1", 1)] ∧
  votes <$> getOfferById "test-1" (upvote "test-1" bigStore) = Some max_exact ∧
  votes <$> getOfferById "test-1" (upvote "test-1" bigStore) ≠ Some (max_exact + 1).
Proof. by vm_compute. Qed.

(** The six rows, read off the table. *)
Example toggle_rows :
  toggle_table 0 up = (1, 1) ∧ toggle_table 0 down = (-1, -1) ∧
  toggle_table 1 up = (0, -1) ∧ toggle_table (-1) down = (0, 1) ∧
  toggle_table 1 down = (-1, -2) ∧ toggle_table (-1) up = (1, 2).
Proof. done. Qed.

(** Cross-toggle arithmetic on the test offer (V = 10): [upvote] then
    [downvote] leaves tally 9 and recorded vote -1; [upvote] twice leaves
    10 and no vote. *)
Example cross_toggle :
  let s := downvote "test-1" (upvote "test-1" mockStore) in
  votes <$> getOfferById "test-1" s = Some 9 ∧ getUserVote "test-1" s = -1.
Proof. by vm_compute. Qed.

Example toggle_symmetry :
  let s := upvote "test-1" (upvote "test-1" mockStore) in
  votes <$> getOfferById "test-1" s = Some 10 ∧ getUserVote "test-1" s = 0.
Proof. by vm_compute. Qed.

(** ** Votes for an offer that is not loaded *)

(** C8. When no accumulated offer has the id, [upvote] and [downvote]
    leave the accumulated offers (and so the sorted view) unchanged, and
    still update the vote list by the toggle table and persist it. *)
Theorem vote_on_absent_offer action offer_id s :
  Forall (fun o => id o ≠ offer_id) (accumulatedOffers s) ->
  accumulatedOffers (cast action offer_id s) = accumulatedOffers s ∧
  offers (cast action offer_id s) = offers s ∧
  getUserVote offer_id (cast action offer_id s)
  = (toggle_table (getUserVote offer_id s) action).1 ∧
  localStorage (cast action offer_id s)
  = Some (JSON.stringify (UserVotes_to_json (userVotesSignal (cast action offer_id s)))).
Proof.
  intros Habs. destruct (cast_effect action offer_id s) as (Hv & Ha & _ & Hs & _).
  rewrite add_delta_absent in Ha by done.
  repeat split; try done. unfold offers. by rewrite Ha.
Qed.

Lemma vote_on_absent_offer_witness :
  accumulatedOffers (cast up "ghost" mockStore) = accumulatedOffers mockStore ∧
  offers (cast up "ghost" mockStore) = offers mockStore ∧
  getUserVote "ghost" (cast up "ghost" mockStore)
  = (toggle_table (getUserVote "ghost" mockStore) up).1 ∧
  localStorage (cast up "ghost" mockStore)
  = Some (JSON.stringify (UserVotes_to_json (userVotesSignal (cast up "ghost" mockStore)))).
Proof.
  apply (vote_on_absent_offer up "ghost" mockStore).
  constructor; [discriminate | constructor].
Defined.

(** ** What a vote call leaves alone *)

(** C10. A vote call keeps the accumulated offers position by position:
    each record keeps every field but [votes], records with another id are
    unchanged, and the cursor, [loading()], [error()] and the resource are
    as before. *)
Theorem vote_frame action offer_id s :
  Forall2 (fun o o' => same_but_votes o o' ∧ (id o = offer_id ∨ o' = o))
          (accumulatedOffers s) (accumulatedOffers (cast action offer_id s)) ∧
  currentPage (cast action offer_id s) = currentPage s ∧
  loading (cast action offer_id s) = loading s ∧
  error (cast action offer_id s) = error s ∧
  offersResource (cast action offer_id s) = offersResource s ∧
  getOffers_pending (cast action offer_id s) = getOffers_pending s.
Proof.
  destruct (cast_effect action offer_id s) as (_ & Ha & _ & _ & Hc & Hr & Hg).
  unfold loading, error. rewrite Ha, Hr. repeat split; try done.
  clear. unfold add_delta.
  induction (accumulatedOffers s) as [|o l IH]; simpl; constructor; [|done].
  destruct (String.eqb (id o) offer_id) eqn:E.
  - apply String.eqb_eq in E. split; [apply with_votes_restore | by left].
  - split; [by destruct o | by right].
Qed.

(** ** Rollback *)

(** C1, as the code has it.  When the [updateVote] call issued by a vote
    fails, the error callback runs on the accumulated offers only: the vote
    list and its persisted copy stay as the vote left them.  Whenever the
    tallies of the offers with the id are at most 2^53 - 2 in magnitude, the
    vote added the delta exactly and the callback puts every tally back: the
    accumulated offers are exactly those before the vote. *)
Theorem failed_sync_restores_tally_only value_throws action offer_id s :
  ∃ delta s2,
    updateVote_pending (cast action offer_id s) !! length (updateVote_pending s)
    = Some (offer_id, delta) ∧
    step value_throws (cast action offer_id s) (VoteSyncFailed (length (updateVote_pending s)))
    = Some s2 ∧
    userVotesSignal s2 = userVotesSignal (cast action offer_id s) ∧
    getUserVote offer_id s2 = (toggle_table (getUserVote offer_id s) action).1 ∧
    localStorage s2 = localStorage (cast action offer_id s) ∧
    localStorage s2
    = Some (JSON.stringify (UserVotes_to_json (userVotesSignal (cast action offer_id s)))) ∧
    (tallies_within 2 offer_id (accumulatedOffers s) ->
     accumulatedOffers (cast action offer_id s)
     = apply_delta offer_id delta (accumulatedOffers s) ∧
     accumulatedOffers s2 = accumulatedOffers s).
Proof.
  destruct (cast_effect action offer_id s) as (Hv & Ha & Hp & Hs & _).
  pose proof (toggle_delta_bound (getUserVote offer_id s) action) as Hd.
  set (delta := (toggle_table (getUserVote offer_id s) action).2) in *.
  assert (Hi : updateVote_pending (cast action offer_id s) !! length (updateVote_pending s)
               = Some (offer_id, delta)).
  { rewrite Hp. by apply list_lookup_middle. }
  exists delta. eexists. split; [done|]. split.
  { unfold step. rewrite Hi. reflexivity. }
  simpl. repeat split; try done.
  - rewrite Ha. apply add_delta_exact. by eapply tallies_within_sum.
  - rewrite Ha. by apply (sub_add_delta 2).
Qed.

Lemma failed_sync_restores_tally_only_witness :
  tallies_within 2 "test-1" (accumulatedOffers mockStore) ∧
  ∃ s2,
    step true (cast up "test-1" mockStore) (VoteSyncFailed 0) = Some s2 ∧
    accumulatedOffers s2 = accumulatedOffers mockStore ∧
    getUserVote "test-1" s2 = 1.
Proof.
  assert (Hsafe : tallies_within 2 "test-1" (accumulatedOffers mockStore)).
  { constructor; [|constructor]. intros _. vm_compute. discriminate. }
  split; [exact Hsafe|].
  destruct (failed_sync_restores_tally_only true up "test-1" mockStore)
    as (delta & s2 & _ & Hstep & _ & Hv & _ & _ & Hback).
  exists s2. split; [exact Hstep|]. split; [exact (proj2 (Hback Hsafe)) | exact Hv].
Defined.

(** C1, as the claim has it, fails at 2^53: the upvote of the offer at
    2^53 votes leaves the tally at 2^53, and when its [updateVote] call
    fails the rollback leaves 2^53 - 1, not the tally before the vote. *)
Lemma rollback_misses_tally_at_2_53 :
  votes <$> getOfferById "test-1" bigStore = Some max_exact ∧
  (fun s => votes <$> getOfferById "test-1" s)
    <$> step true (upvote "test-1" bigStore) (VoteSyncFailed 0)
  = Some (Some (max_exact - 1)) ∧
  (fun s => accumulatedOffers s)
    <$> step true (upvote "test-1" bigStore) (VoteSyncFailed 0)
  ≠ Some (accumulatedOffers bigStore).
Proof. by vm_compute. Qed.

(** The rollback test: the offer at 10 votes, a data source whose vote
    update fails. *)
Example rollback_on_mock :
  (fun s => (votes <$> getOfferById "test-1" s, getUserVote "test-1" s))
    <$> step true (upvote "test-1" mockStore) (VoteSyncFailed 0)
  = Some (Some 10, 1).
Proof. by vm_compute. Qed.

(** ** The sorted view *)

(** C3. In every store state [offers()] is the accumulated list sorted by
    votes, highest first, and stably: it is a permutation of the accumulated
    offers, descending by [votes], and for every tally the offers with that
    tally appear in accumulation order.  The view is recomputed from the
    accumulated list, so this holds after every vote as well. *)
Theorem offers_sorted_stable s :
  offers s ≡ₚ accumulatedOffers s ∧
  votes_descending (offers s) ∧
  ∀ v, with_tally v (offers s) = with_tally v (accumulatedOffers s).
Proof.
  unfold offers, votes_descending, with_tally. split; [|split].
  - apply (Array_sort_perm votes).
  - apply (Array_sort_sorted votes).
  - intros v. apply (Array_sort_keyed votes).
Qed.

(** The sorting tests: 5, 15, 10 come out as 15, 10, 5; three offers at
    7, 9, 7 keep the two sevens in arrival order, also after both were
    upvoted. *)
Example offers_sorted_on_mock :
  let o (i : string) (v : Z) :=
    with_votes (mkOffer i "t" "d" (5 # 1) "EUR" "img" 0 "c" "s" cond_good 0) v in
  let s (os : list Offer) := OffersStore.set_accumulatedOffers os mockStore in
  map votes (offers (s [o "offer-1" 5; o "offer-2" 15; o "offer-3" 10])) = [15; 10; 5] ∧
  map id (offers (s [o "a" 7; o "b" 9; o "c" 7])) = ["b"; "a"; "c"] ∧
  map id (offers (upvote "c" (upvote "a" (s [o "a" 7; o "b" 9; o "c" 7])))) = ["b"; "a"; "c"].
Proof. by vm_compute. Qed.

(** ** Loading the persisted votes *)

(** C4. What construction does with the stored value.  A missing value and
    the empty string give an empty vote list.  A value that [JSON.parse]
    rejects makes [loadUserVotes], and with it the construction of the
    store, throw the [SyntaxError]: nothing catches it, against the method's
    own comment (returns an empty array if the JSON is invalid). *)
Theorem loadUserVotes_throws_on_invalid_json :
  loadUserVotes None = Returned [] ∧
  loadUserVotes (Some EmptyString) = Returned [] ∧
  (∃ s, new None = Returned s ∧ userVotes s = []) ∧
  loadUserVotes (Some "{") = Thrown JSONSyntaxError ∧
  new (Some "{") = Thrown JSONSyntaxError ∧
  new (Some "not json") = Thrown JSONSyntaxError.
Proof.
  repeat split; try reflexivity. by exists freshStore.
Qed.

(** ** Persistence round trip *)

(** C7. After [upvote(id)] on an id without a recorded vote, the storage
    slot holds the serialised vote list, and a store constructed from that
    text is constructed without error, holds the same vote list, and
    reports [getUserVote(id) = 1]. *)
Theorem persisted_vote_round_trip offer_id s :
  getUserVote offer_id s = 0 ->
  ∃ text s',
    localStorage (upvote offer_id s) = Some text ∧
    text = JSON.stringify (UserVotes_to_json (userVotesSignal (upvote offer_id s))) ∧
    new (Some text) = Returned s' ∧
    userVotesSignal s' = userVotesSignal (upvote offer_id s) ∧
    userVotesSignal s' = userVotesSignal s ++ [mkUserVote offer_id up] ∧
    getUserVote offer_id s' = 1.
Proof.
  intros Hnone.
  destruct (cast_effect up offer_id s) as (Hv & _ & _ & Hs & _). cbn [cast] in *.
  rewrite Hnone in Hv. eexists. eexists. split; [exact Hs|]. split; [done|].
  unfold new. rewrite loadUserVotes_stringify. cbn [obind].
  split; [done|]. split; [done|]. split; [by apply upvote_first | exact Hv].
Qed.

Lemma persisted_vote_round_trip_witness :
  ∃ text s',
    localStorage (upvote "test-1" mockStore) = Some text ∧
    text = JSON.stringify (UserVotes_to_json (userVotesSignal (upvote "test-1" mockStore))) ∧
    new (Some text) = Returned s' ∧
    userVotesSignal s' = userVotesSignal (upvote "test-1" mockStore) ∧
    userVotesSignal s' = userVotesSignal mockStore ++ [mkUserVote "test-1" up] ∧
    getUserVote "test-1" s' = 1.
Proof.
  apply (persisted_vote_round_trip "test-1" mockStore). reflexivity.
Defined.

(** The persistence tests: the text written for one upvote, and the store
    built from it. *)
Example persisted_text_on_mock :
  localStorage (upvote "test-1" mockStore) = Some (q "[{'offerId':'test-1','voteType':1}]") ∧
  userVotes <$> (match new (Some (q "[{'offerId':'test-1','voteType':1}]")) with
                 | Returned s => Some s
                 | _ => None
                 end)
  = Some [mkUserVote "test-1" up].
Proof. by vm_compute. Qed.

(** ** Pagination *)

(** C6. In every reachable state at most one page fetch is pending, and
    when [loading()] is true or [hasMore()] is false, [loadNextPage()]
    returns with the store unchanged: the cursor does not move and no call
    to [getOffers] is issued. *)
Theorem loadNextPage_is_guarded value_throws s :
  reachable value_throws s ->
  (length (getOffers_pending s) <= 1)%nat ∧
  (loading s = true ∨ hasMore value_throws s = Returned false ->
   loadNextPage value_throws s = Returned s ∧
   step value_throws s LoadNextPage = Some s).
Proof.
  intros Hr. split.
  - apply reachable_in_flight in Hr. unfold in_flight_matches in Hr. rewrite Hr.
    destruct (loading s); simpl; lia.
  - intros Hguard. assert (H : loadNextPage value_throws s = Returned s).
    { unfold loadNextPage. destruct Hguard as [->| ->]; [done|].
      by destruct (loading s). }
    split; [done|]. simpl. by rewrite H.
Qed.

Lemma loadNextPage_is_guarded_witness :
  reachable true freshStore ∧
  loading freshStore = true ∧
  (length (getOffers_pending freshStore) <= 1)%nat ∧
  loadNextPage true freshStore = Returned freshStore ∧
  step true freshStore LoadNextPage = Some freshStore.
Proof.
  assert (Hr : reachable true freshStore).
  { apply (reachable_new true None). reflexivity. }
  destruct (loadNextPage_is_guarded true freshStore Hr) as [Hone Hnoop].
  split; [exact Hr|]. split; [reflexivity|]. split; [exact Hone|].
  apply Hnoop. left. reflexivity.
Defined.

(** The pagination tests: a call while page 0 is loading, and a call after
    a last page ([hasMore] false), change nothing; after a page with more to
    come the cursor moves to 1 and page 1 is requested. *)
Example loadNextPage_on_mock :
  loadNextPage true freshStore = Returned freshStore ∧
  loadNextPage true mockStore = Returned mockStore ∧
  (let more :=
     {| OffersApiService.offers := [mockOffer]; OffersApiService.total := 20;
        OffersApiService.page := 0; OffersApiService.pageSize := 10;
        OffersApiService.hasMore := true |} in
   match loadNextPage true (getOffers_next more freshStore) with
   | Returned s => (currentPage s, getOffers_pending s)
   | _ => (0%nat, [])
   end = (1%nat, [(1%nat, 10%nat)])).
Proof. by vm_compute. Qed.

(** C5, as the code has it.  When the pending page fetch of a reachable
    state fails, it is the fetch for the cursor's page; afterwards
    [loading()] is false, [error()] is the failure's message, the
    accumulated offers and the cursor are unchanged and nothing is pending;
    and no run of the store from there requests the failed page again:
    every later request is for a page beyond it. *)
Theorem fetch_failure_keeps_cursor value_throws s message s' :
  reachable value_throws s ->
  step value_throws s (FetchFailed message) = Some s' ->
  getOffers_pending s = [(currentPage s, pageSize)] ∧
  loading s' = false ∧
  error s' = Some message ∧
  accumulatedOffers s' = accumulatedOffers s ∧
  currentPage s' = currentPage s ∧
  getOffers_pending s' = [] ∧
  ∀ trace s'' req,
    run value_throws s' trace = Some s'' -> req ∈ getOffers_pending s'' ->
    (currentPage s < req.1)%nat.
Proof.
  intros Hr Hstep. apply reachable_in_flight in Hr.
  assert (Hl : loading s = true).
  { unfold in_flight_matches in Hr. simpl in Hstep.
    destruct (loading s); [done|]. by rewrite Hr in Hstep. }
  assert (Hp : getOffers_pending s = [(currentPage s, pageSize)]).
  { unfold in_flight_matches in Hr. by rewrite Hl in Hr. }
  simpl in Hstep. rewrite Hp in Hstep. simplify_eq. simpl. rewrite Hp.
  repeat split; try done.
  intros trace s'' req Hrun Hreq.
  by eapply failed_page_never_requested.
Qed.

Lemma fetch_failure_keeps_cursor_witness :
  getOffers_pending freshStore = [(currentPage freshStore, pageSize)] ∧
  loading (getOffers_error "Network error" freshStore) = false ∧
  error (getOffers_error "Network error" freshStore) = Some "Network error" ∧
  accumulatedOffers (getOffers_error "Network error" freshStore)
  = accumulatedOffers freshStore ∧
  currentPage (getOffers_error "Network error" freshStore) = currentPage freshStore ∧
  getOffers_pending (getOffers_error "Network error" freshStore) = [] ∧
  ∀ trace s'' req,
    run true (getOffers_error "Network error" freshStore) trace = Some s'' ->
    req ∈ getOffers_pending s'' ->
    (currentPage freshStore < req.1)%nat.
Proof.
  apply (fetch_failure_keeps_cursor true freshStore "Network error").
  - apply (reachable_new true None). reflexivity.
  - reflexivity.
Defined.

(** C5, as the claim has it, fails on the store whose first fetch (page 0)
    failed with [Network error].  The next [loadNextPage()] does not fetch
    page 0: with Angular 20 or later it throws, because [hasMore()] reads
    the value of a resource in error state; with the earlier behaviour it
    moves the cursor to 1 and requests page 1.  In no run from there is
    page 0 requested again. *)
Lemma failed_page_is_skipped :
  new None = Returned freshStore ∧
  getOffers_pending freshStore = [(0%nat, pageSize)] ∧
  step true freshStore (FetchFailed "Network error")
  = Some (getOffers_error "Network error" freshStore) ∧
  loadNextPage true (getOffers_error "Network error" freshStore)
  = Thrown (ResourceValueError "Network error") ∧
  loadNextPage false (getOffers_error "Network error" freshStore)
  = Returned (set_currentPage 1 (getOffers_error "Network error" freshStore)) ∧
  getOffers_pending (set_currentPage 1 (getOffers_error "Network error" freshStore))
  = [(1%nat, pageSize)] ∧
  ∀ value_throws trace s,
    run value_throws (getOffers_error "Network error" freshStore) trace = Some s ->
    (0%nat, pageSize) ∉ getOffers_pending s.
Proof.
  repeat split; try reflexivity.
  intros value_throws trace s Hrun Hin.
  assert (H : (currentPage freshStore < (0%nat, pageSize).1)%nat).
  { by eapply (failed_page_never_requested value_throws "Network error" freshStore). }
  simpl in H. lia.
Qed.

End OffersStoreFacts.

(** * Further properties of the store *)

Module OffersStoreMore.
Import OffersStore Spec Derived OffersStoreFacts.

Implicit Types (s : OffersStore.t) (offer_id : string).

(** *** Lookups *)

Lemma find_split {A} (p : A -> bool) (l : list A) :
  match find p l with
  | Some x => p x = true ∧ ∃ l1 l2, l = l1 ++ x :: l2 ∧ Forall (fun y => p y = false) l1
  | None => Forall (fun y => p y = false) l
  end.
Proof.
  induction l as [|y l IH]; simpl; [constructor|].
  destruct (p y) eqn:E.
  - split; [done|]. by exists [], l.
  - destruct (find p l) as [x|].
    + destruct IH as (Hx & l1 & l2 & -> & Hl1). split; [done|].
      exists (y :: l1), l2. split; [done | by constructor].
    + by constructor.
Qed.

(** X1. [getOfferById] returns the first accumulated offer with the id
    (its id is the one asked for and no earlier record has it), and returns
    nothing exactly when no accumulated offer has the id. *)
Theorem getOfferById_first_match offer_id s :
  match getOfferById offer_id s with
  | Some o =>
      id o = offer_id ∧
      ∃ before after, accumulatedOffers s = before ++ o :: after ∧
                      Forall (fun o' => id o' ≠ offer_id) before
  | None => Forall (fun o' => id o' ≠ offer_id) (accumulatedOffers s)
  end.
Proof.
  unfold getOfferById.
  pose proof (find_split (fun o => String.eqb (id o) offer_id) (accumulatedOffers s)) as H.
  destruct (find _ _) as [o|].
  - destruct H as (Hid & l1 & l2 & Hl & Hl1). split; [by apply String.eqb_eq|].
    exists l1, l2. split; [done|]. eapply Forall_impl; [exact Hl1|].
    intros o'. simpl. by intros ?%String.eqb_neq.
  - eapply Forall_impl; [exact H|]. intros o'. simpl. by intros ?%String.eqb_neq.
Qed.

Lemma NoDup_map_inj {A B} (f : A -> B) (l : list A) x y :
  NoDup (map f l) -> x ∈ l -> y ∈ l -> f x = f y -> x = y.
Proof.
  induction l as [|z l IH]; simpl; [by intros _ ?%elem_of_nil|].
  intros [Hz Hl]%NoDup_cons [->|Hx]%elem_of_cons [->|Hy]%elem_of_cons Hf; try done.
  - exfalso. apply Hz. rewrite Hf. by apply list_elem_of_fmap_2.
  - exfalso. apply Hz. rewrite <- Hf. by apply list_elem_of_fmap_2.
  - by apply IH.
Qed.

Lemma VoteType_value_inj a b : VoteType_value a = VoteType_value b -> a = b.
Proof. by destruct a, b. Qed.

(** X2. While the vote list holds at most one record per offer,
    [getUserVote] returns +1 or -1 exactly when the list holds the record
    with that direction for the id, and 0 exactly when it holds no record
    for the id. *)
Theorem getUserVote_reads_the_record offer_id vt s :
  one_vote_per_offer s ->
  (mkUserVote offer_id vt ∈ userVotesSignal s ↔ getUserVote offer_id s = VoteType_value vt) ∧
  (getUserVote offer_id s = 0 ↔ Forall (fun v => offerId v ≠ offer_id) (userVotesSignal s)).
Proof.
  intros Hone. split; [|apply getUserVote_none].
  unfold getUserVote, one_vote_per_offer in *.
  pose proof (find_split (fun v => String.eqb (offerId v) offer_id) (userVotesSignal s)) as H.
  destruct (find _ _) as [v|].
  - destruct H as (Hid%String.eqb_eq & l1 & l2 & Hl & _).
    assert (Hv : v ∈ userVotesSignal s).
    { rewrite Hl. apply elem_of_app. right. left. }
    split.
    + intros Hin. f_equal.
      assert (v = mkUserVote offer_id vt) as ->; [|done].
      by eapply (NoDup_map_inj offerId).
    + intros Heq%VoteType_value_inj. destruct v as [i t]. simpl in *. by subst.
  - split.
    + intros Hin. rewrite Forall_forall in H. specialize (H _ Hin). simpl in H.
      by rewrite String.eqb_refl in H.
    + by destruct vt.
Qed.

Lemma getUserVote_reads_the_record_witness :
  (mkUserVote "test-1" up ∈ userVotesSignal (upvote "test-1" mockStore)
   ↔ getUserVote "test-1" (upvote "test-1" mockStore) = VoteType_value up) ∧
  (getUserVote "test-1" (upvote "test-1" mockStore) = 0
   ↔ Forall (fun v => offerId v ≠ "test-1") (userVotesSignal (upvote "test-1" mockStore))).
Proof.
  apply (getUserVote_reads_the_record "test-1" up (upvote "test-1" mockStore)).
  apply NoDup_singleton.
Defined.

(** *** Votes for other ids *)

Lemma find_other_filter offer_id other (l : list UserVote) :
  other ≠ offer_id ->
  find (fun v => String.eqb (offerId v) other) l
  = find (fun v => String.eqb (offerId v) other)
         (List.filter (fun v => negb (String.eqb (offerId v) offer_id)) l).
Proof.
  intros Hne. induction l as [|v l IH]; [done|]. simpl.
  destruct (String.eqb_spec (offerId v) other) as [He|Hn];
    destruct (String.eqb_spec (offerId v) offer_id) as [He'|Hn']; simpl.
  - congruence.
  - by rewrite <- He, String.eqb_refl.
  - done.
  - by apply String.eqb_neq in Hn as ->.
Qed.

Lemma votes_for_others_cast action offer_id s :
  votes_for_others offer_id (cast action offer_id s) = votes_for_others offer_id s.
Proof.
  unfold votes_for_others.
  destruct action; unfold cast, upvote, downvote; simpl;
    destruct (find _ (userVotesSignal s)) as [[i []]|]; simpl.
  all: try (induction (userVotesSignal s) as [|v l IH]; simpl; [done|];
            destruct (String.eqb (offerId v) offer_id) eqn:E; simpl; rewrite ?E; simpl;
            rewrite ?E; simpl; by rewrite ?IH).
  all: rewrite List.filter_app; simpl; rewrite String.eqb_refl; simpl; by rewrite app_nil_r.
Qed.

(** X3. A vote on one offer leaves the records of all other offers as
    they were, in order, and so leaves [getUserVote] of every other id
    unchanged. *)
Theorem vote_leaves_other_votes action offer_id other s :
  other ≠ offer_id ->
  votes_for_others offer_id (cast action offer_id s) = votes_for_others offer_id s ∧
  getUserVote other (cast action offer_id s) = getUserVote other s.
Proof.
  intros Hne. split; [apply votes_for_others_cast|].
  unfold getUserVote.
  rewrite (find_other_filter offer_id other (userVotesSignal (cast action offer_id s))) by done.
  rewrite (find_other_filter offer_id other (userVotesSignal s)) by done.
  pose proof (votes_for_others_cast action offer_id s) as H. unfold votes_for_others in H.
  by rewrite H.
Qed.

Lemma vote_leaves_other_votes_witness :
  votes_for_others "test-1" (cast down "test-1" (upvote "ghost" mockStore))
  = votes_for_others "test-1" (upvote "ghost" mockStore) ∧
  getUserVote "ghost" (cast down "test-1" (upvote "ghost" mockStore))
  = getUserVote "ghost" (upvote "ghost" mockStore).
Proof.
  apply (vote_leaves_other_votes down "test-1" "ghost" (upvote "ghost" mockStore)).
  discriminate.
Defined.

(** *** At most one vote per offer *)

Lemma NoDup_map_filter {A B} (f : A -> B) (p : A -> bool) (l : list A) :
  NoDup (map f l) -> NoDup (map f (List.filter p l)).
Proof.
  induction l as [|x l IH]; simpl; [done|]. intros [Hx Hl]%NoDup_cons.
  destruct (p x); simpl; [|by apply IH]. apply NoDup_cons. split; [|by apply IH].
  intros Hin. apply Hx. apply list_elem_of_fmap in Hin as (y & -> & Hy).
  apply list_elem_of_fmap_2. apply list_elem_of_In in Hy. apply filter_In in Hy as [Hy _].
  by apply list_elem_of_In.
Qed.

Lemma find_none_not_in offer_id (l : list UserVote) :
  find (fun v => String.eqb (offerId v) offer_id) l = None -> offer_id ∉ map offerId l.
Proof.
  intros Hf Hin. apply list_elem_of_fmap in Hin as (v & -> & Hv).
  apply list_elem_of_In in Hv. eapply find_none in Hf; [|exact Hv].
  simpl in Hf. by rewrite String.eqb_refl in Hf.
Qed.

Lemma cast_one_vote_per_offer action offer_id s :
  one_vote_per_offer s -> one_vote_per_offer (cast action offer_id s).
Proof.
  unfold one_vote_per_offer. intros Hs.
  destruct action; unfold cast, upvote, downvote; simpl;
    destruct (find _ (userVotesSignal s)) as [[i []]|] eqn:E; simpl.
  all: try by apply NoDup_map_filter.
  all: try (rewrite map_map;
            erewrite map_ext; [exact Hs|]; intros v; simpl;
            by destruct (String.eqb (offerId v) offer_id)).
  all: rewrite map_app; simpl; apply NoDup_app; split; [done|]; split;
    [|apply NoDup_singleton];
    intros x Hx ->%list_elem_of_singleton; by eapply find_none_not_in.
Qed.

Lemma step_userVotes value_throws s e s' :
  step value_throws s e = Some s' ->
  s' = s ∨ (∃ action offer_id, s' = cast action offer_id s) ∨
  (userVotesSignal s' = userVotesSignal s ∧ localStorage s' = localStorage s).
Proof.
  destruct e; simpl; intros Hstep.
  - destruct (loadNextPage_cases value_throws s) as [[H _]|[[H _]|[x [H _]]]];
      rewrite H in Hstep; simplify_eq; auto.
  - simplify_eq. right. left. by exists up, offer_id.
  - simplify_eq. right. left. by exists down, offer_id.
  - destruct (getOffers_pending s); simplify_eq. auto.
  - destruct (getOffers_pending s); simplify_eq. auto.
  - destruct (updateVote_pending s !! i) as [[? ?]|]; simpl in Hstep; simplify_eq. auto.
  - destruct (updateVote_pending s !! i) as [[? ?]|]; simpl in Hstep; simplify_eq. auto.
Qed.

(** X4. At most one vote per offer is an invariant: no run of the store
    that starts with it ever breaks it. *)
Theorem one_vote_per_offer_kept value_throws trace : ∀ s s',
  one_vote_per_offer s -> run value_throws s trace = Some s' -> one_vote_per_offer s'.
Proof.
  induction trace as [|e trace IH]; intros s s' Hs Hrun; simpl in Hrun.
  - by simplify_eq.
  - destruct (step value_throws s e) as [s1|] eqn:E; [|done]. simpl in Hrun.
    eapply IH; [|done].
    destruct (step_userVotes _ _ _ _ E) as [->|[(a & i & ->)|[Hv _]]]; [done| |].
    + by apply cast_one_vote_per_offer.
    + unfold one_vote_per_offer. by rewrite Hv.
Qed.

Lemma one_vote_per_offer_kept_witness :
  ∃ s', run true mockStore [Upvote "test-1"; Downvote "ghost"; Downvote "test-1"] = Some s' ∧
        one_vote_per_offer s'.
Proof.
  eexists. split; [reflexivity|].
  apply (one_vote_per_offer_kept true
           [Upvote "test-1"; Downvote "ghost"; Downvote "test-1"] mockStore);
    [constructor | reflexivity].
Defined.

(** *** The tally without the user's own vote *)

Lemma id_with_votes (o : Offer) v : id (with_votes o v) = id o.
Proof. done. Qed.

Lemma toggle_delta prior action :
  prior = 0 ∨ prior = 1 ∨ prior = -1 ->
  (toggle_table prior action).2 = (toggle_table prior action).1 - prior.
Proof. intros [->|[->| ->]]; by destruct action. Qed.

Lemma cast_tally_without_own_vote action offer_id s :
  Forall (fun o => Z.abs (tally_without_own_vote s o) <= max_exact - 1) (accumulatedOffers s) ->
  map (tally_without_own_vote (cast action offer_id s)) (accumulatedOffers (cast action offer_id s))
  = map (tally_without_own_vote s) (accumulatedOffers s).
Proof.
  intros Hb. destruct (cast_effect action offer_id s) as (Hv & Ha & _).
  rewrite Ha. unfold add_delta. rewrite map_map. apply map_ext_in. intros o Hin.
  rewrite Forall_forall in Hb. apply list_elem_of_In in Hin. specialize (Hb _ Hin).
  unfold tally_without_own_vote in *.
  destruct (String.eqb_spec (id o) offer_id) as [He|Hne].
  - rewrite id_with_votes, He, Hv. rewrite He in Hb. simpl.
    pose proof (getUserVote_range offer_id (cast action offer_id s)) as Hr.
    rewrite Hv in Hr.
    rewrite (toggle_delta _ action (getUserVote_range offer_id s)) in *.
    rewrite js_add_exact by lia. lia.
  - f_equal. unfold getUserVote.
    rewrite (find_other_filter offer_id (id o) (userVotesSignal (cast action offer_id s))) by done.
    rewrite (find_other_filter offer_id (id o) (userVotesSignal s)) by done.
    pose proof (votes_for_others_cast action offer_id s) as H. unfold votes_for_others in H.
    by rewrite H.
Qed.

(** X5. Any sequence of [upvote] and [downvote] calls, on any ids, leaves
    every accumulated offer's tally minus the user's own recorded vote for
    it unchanged, provided these differences are at most 2^53 - 1 in
    magnitude to begin with: votes only ever move a tally by the change of
    the user's own vote. *)
Theorem votes_conserve_base_tally (calls : list (VoteType * string)) s :
  Forall (fun o => Z.abs (tally_without_own_vote s o) <= max_exact - 1) (accumulatedOffers s) ->
  map (tally_without_own_vote (foldl (fun st c => cast c.1 c.2 st) s calls))
      (accumulatedOffers (foldl (fun st c => cast c.1 c.2 st) s calls))
  = map (tally_without_own_vote s) (accumulatedOffers s).
Proof.
  revert s. induction calls as [|[a i] calls IH]; intros s Hb; [done|].
  cbn [foldl fst snd]. pose proof (cast_tally_without_own_vote a i s Hb) as Hstep.
  rewrite IH; [done|].
  apply (Forall_map (tally_without_own_vote (cast a i s))
           (fun b => Z.abs b <= max_exact - 1)).
  rewrite Hstep. by apply Forall_map.
Qed.

Lemma votes_conserve_base_tally_witness :
  map (tally_without_own_vote
         (foldl (fun st c => cast c.1 c.2 st) mockStore [(up, "test-1"); (down, "test-1")]))
      (accumulatedOffers
         (foldl (fun st c => cast c.1 c.2 st) mockStore [(up, "test-1"); (down, "test-1")]))
  = map (tally_without_own_vote mockStore) (accumulatedOffers mockStore).
Proof.
  apply (votes_conserve_base_tally [(up, "test-1"); (down, "test-1")] mockStore).
  constructor; [|constructor]. vm_compute. discriminate.
Defined.

(** *** The storage slot follows the vote list *)

(** X6. In every reachable state the storage slot reads back, through
    [loadUserVotes], as exactly the current vote list: a store constructed
    from the slot at that moment holds the same votes and answers
    [getUserVote] alike for every id. *)
Theorem restart_recovers_votes value_throws s :
  reachable value_throws s ->
  loadUserVotes (localStorage s) = Returned (userVotesSignal s) ∧
  ∃ s', new (localStorage s) = Returned s' ∧
        userVotesSignal s' = userVotesSignal s ∧
        ∀ offer_id, getUserVote offer_id s' = getUserVote offer_id s.
Proof.
  intros Hr. assert (H : loadUserVotes (localStorage s) = Returned (userVotesSignal s)).
  { induction Hr as [stored s Hnew|s e s' _ IH Hstep].
    - unfold new in Hnew. destruct (loadUserVotes stored) eqn:E; simpl in Hnew; simplify_eq.
      exact E.
    - destruct (step_userVotes _ _ _ _ Hstep) as [->|[(a & i & ->)|[Hv Hl]]]; [done| |].
      + destruct (cast_effect a i s) as (_ & _ & _ & -> & _).
        apply loadUserVotes_stringify.
      + by rewrite Hv, Hl. }
  split; [done|]. unfold new. rewrite H. simpl. eexists. split; [done|]. by split.
Qed.

Lemma restart_recovers_votes_witness :
  loadUserVotes (localStorage (downvote "ghost" freshStore))
  = Returned (userVotesSignal (downvote "ghost" freshStore)) ∧
  ∃ s', new (localStorage (downvote "ghost" freshStore)) = Returned s' ∧
        userVotesSignal s' = userVotesSignal (downvote "ghost" freshStore) ∧
        ∀ offer_id, getUserVote offer_id s' = getUserVote offer_id (downvote "ghost" freshStore).
Proof.
  apply (restart_recovers_votes true (downvote "ghost" freshStore)).
  apply (reachable_step true freshStore (Downvote "ghost")); [|reflexivity].
  apply (reachable_new true None). reflexivity.
Defined.

(** *** What a run of the store never undoes *)

Lemma same_but_votes_refl (o : Offer) : same_but_votes o o.
Proof. by destruct o. Qed.

Lemma same_but_votes_trans (a b c : Offer) :
  same_but_votes a b -> same_but_votes b c -> same_but_votes a c.
Proof.
  unfold same_but_votes, with_votes. destruct a, b, c. simpl.
  intros H1 H2. injection H1 as ->. injection H2 as ->. by subst.
Qed.

Lemma same_but_votes_map (f : Z -> Z) (p : Offer -> bool) (l : list Offer) :
  Forall2 same_but_votes l (map (fun o => if p o then with_votes o (f (votes o)) else o) l).
Proof.
  induction l as [|o l IH]; simpl; constructor; [|done].
  destruct (p o); [apply with_votes_restore | apply same_but_votes_refl].
Qed.

Lemma Forall2_same_but_votes_refl (l : list Offer) : Forall2 same_but_votes l l.
Proof. induction l; constructor; [apply same_but_votes_refl | done]. Qed.

Lemma extends_offers_refl l : extends_offers l l.
Proof.
  exists l, []. split; [by rewrite app_nil_r | apply Forall2_same_but_votes_refl].
Qed.

Lemma extends_offers_map (f : Z -> Z) (p : Offer -> bool) (l : list Offer) :
  extends_offers l (map (fun o => if p o then with_votes o (f (votes o)) else o) l).
Proof.
  exists (map (fun o => if p o then with_votes o (f (votes o)) else o) l), [].
  split; [by rewrite app_nil_r | apply same_but_votes_map].
Qed.

Lemma Forall2_same_but_votes_trans (a b c : list Offer) :
  Forall2 same_but_votes a b -> Forall2 same_but_votes b c -> Forall2 same_but_votes a c.
Proof.
  intros Hab. revert c. induction Hab as [|x y a b Hxy _ IH]; intros c Hbc.
  - by inversion Hbc.
  - inversion Hbc as [|? z ? c' Hyz Hbc']; subst. constructor; [|by apply IH].
    by eapply same_but_votes_trans.
Qed.

Lemma extends_offers_trans a b c :
  extends_offers a b -> extends_offers b c -> extends_offers a c.
Proof.
  intros (k1 & a1 & -> & H1) (k2 & a2 & -> & H2).
  apply Forall2_app_inv_l in H2 as (k2a & k2b & H2a & H2b & ->).
  exists k2a, (k2b ++ a2). split; [by rewrite app_assoc|].
  by eapply Forall2_same_but_votes_trans.
Qed.

Lemma step_extends value_throws s e s' :
  step value_throws s e = Some s' ->
  (currentPage s <= currentPage s')%nat ∧
  extends_offers (accumulatedOffers s) (accumulatedOffers s').
Proof.
  destruct e; simpl; intros Hstep.
  - destruct (loadNextPage_cases value_throws s) as [[H _]|[[H _]|[x [H _]]]];
      rewrite H in Hstep; simplify_eq; simpl; (split; [lia | apply extends_offers_refl]).
  - simplify_eq. destruct (cast_effect up offer_id s) as (_ & Ha & _ & _ & Hc & _).
    cbn [cast] in *. rewrite Ha, Hc. split; [done|].
    unfold add_delta.
    apply (extends_offers_map (fun v => js_add v _) (fun o => String.eqb (id o) offer_id)).
  - simplify_eq. destruct (cast_effect down offer_id s) as (_ & Ha & _ & _ & Hc & _).
    cbn [cast] in *. rewrite Ha, Hc. split; [done|].
    unfold add_delta.
    apply (extends_offers_map (fun v => js_add v _) (fun o => String.eqb (id o) offer_id)).
  - destruct (getOffers_pending s); simplify_eq. simpl. split; [done|].
    exists (accumulatedOffers s), (OffersApiService.offers response).
    split; [done | apply Forall2_same_but_votes_refl].
  - destruct (getOffers_pending s); simplify_eq. simpl. split; [done|].
    apply extends_offers_refl.
  - destruct (updateVote_pending s !! i) as [[? ?]|]; simpl in Hstep; simplify_eq.
    simpl. split; [done | apply extends_offers_refl].
  - destruct (updateVote_pending s !! i) as [[? ?]|]; simpl in Hstep; simplify_eq.
    simpl. split; [done|].
    apply (extends_offers_map (fun v => js_sub v _) (fun o => String.eqb (id o) _)).
Qed.

(** X7. No run of the store moves the cursor back, and none removes,
    reorders or alters an accumulated offer other than in its tally: the
    offers afterwards are the earlier ones, position by position and up to
    [votes], followed by those that arrived. *)
Theorem run_keeps_offers_and_cursor value_throws trace : ∀ s s',
  run value_throws s trace = Some s' ->
  (currentPage s <= currentPage s')%nat ∧
  extends_offers (accumulatedOffers s) (accumulatedOffers s').
Proof.
  induction trace as [|e trace IH]; intros s s' Hrun; simpl in Hrun.
  - simplify_eq. split; [done | apply extends_offers_refl].
  - destruct (step value_throws s e) as [s1|] eqn:E; [|done]. simpl in Hrun.
    destruct (step_extends _ _ _ _ E) as [Hc Ha].
    destruct (IH _ _ Hrun) as [Hc' Ha']. split; [lia|].
    by eapply extends_offers_trans.
Qed.

Lemma run_keeps_offers_and_cursor_witness :
  ∃ s', run true freshStore [FetchSucceeded mockPage; Upvote "test-1"; VoteSyncFailed 0]
        = Some s' ∧
        (currentPage freshStore <= currentPage s')%nat ∧
        extends_offers (accumulatedOffers freshStore) (accumulatedOffers s').
Proof.
  eexists. split; [reflexivity|].
  apply (run_keeps_offers_and_cursor true
           [FetchSucceeded mockPage; Upvote "test-1"; VoteSyncFailed 0] freshStore).
  reflexivity.
Defined.

(** *** Pending fetches *)

(** X8. In every reachable state every pending [getOffers] call is for the
    cursor's page with page size 10, and while one is pending [loading()] is
    true. *)
Theorem pending_fetch_is_for_cursor value_throws s :
  reachable value_throws s ->
  Forall (fun req => req = (currentPage s, 10%nat)) (getOffers_pending s) ∧
  (getOffers_pending s = [] ∨ loading s = true).
Proof.
  intros Hr%reachable_in_flight. unfold in_flight_matches in Hr. rewrite Hr.
  destruct (loading s); split; auto; by repeat constructor.
Qed.

Lemma pending_fetch_is_for_cursor_witness :
  Forall (fun req => req = (currentPage freshStore, 10%nat)) (getOffers_pending freshStore) ∧
  (getOffers_pending freshStore = [] ∨ loading freshStore = true).
Proof.
  apply (pending_fetch_is_for_cursor true freshStore).
  apply (reachable_new true None). reflexivity.
Defined.

Lemma exhausted_step value_throws s e s' :
  exhausted s -> getOffers_pending s = [] -> step value_throws s e = Some s' ->
  exhausted s' ∧ getOffers_pending s' = [] ∧ currentPage s' = currentPage s ∧
  offersResource s' = offersResource s ∧
  map id (accumulatedOffers s') = map id (accumulatedOffers s).
Proof.
  intros (r & Hres & Hmore) Hp Hstep.
  assert (Hmap : ∀ (f : Z -> Z) i (l : list Offer),
            map id (map (fun o => if String.eqb (id o) i
                                  then with_votes o (f (votes o)) else o) l) = map id l).
  { intros f i l. rewrite map_map. apply map_ext. intros o.
    by destruct (String.eqb (id o) i). }
  assert (Hcast : ∀ a i, exhausted (cast a i s) ∧ getOffers_pending (cast a i s) = [] ∧
            currentPage (cast a i s) = currentPage s ∧
            offersResource (cast a i s) = offersResource s ∧
            map id (accumulatedOffers (cast a i s)) = map id (accumulatedOffers s)).
  { intros a i. destruct (cast_effect a i s) as (_ & Ha & _ & _ & Hc & Hr & Hg).
    rewrite Ha, Hc, Hr, Hg. repeat split; try done.
    - exists r. by rewrite Hr.
    - apply (Hmap (fun v => js_add v _)). }
  destruct e; simpl in Hstep.
  - unfold loadNextPage, loading, hasMore, resource_value in Hstep.
    rewrite Hres in Hstep. simpl in Hstep. rewrite Hmore in Hstep. simplify_eq.
    repeat split; try done. by exists r.
  - simplify_eq. apply (Hcast up).
  - simplify_eq. apply (Hcast down).
  - by rewrite Hp in Hstep.
  - by rewrite Hp in Hstep.
  - destruct (updateVote_pending s !! i) as [[? ?]|]; simpl in Hstep; simplify_eq.
    repeat split; try done. by exists r.
  - destruct (updateVote_pending s !! i) as [[? ?]|]; simpl in Hstep; simplify_eq.
    simpl. repeat split; try done; [by exists r|]. apply (Hmap (fun v => js_sub v _)).
Qed.

(** X9. Once the resource holds a page that reported [hasMore] false
    and nothing is pending, no run of the store issues another fetch, moves
    the cursor, changes the resource, or changes which offers are
    accumulated. *)
Theorem no_fetch_after_last_page value_throws trace : ∀ s s',
  exhausted s -> getOffers_pending s = [] ->
  run value_throws s trace = Some s' ->
  getOffers_pending s' = [] ∧ currentPage s' = currentPage s ∧
  offersResource s' = offersResource s ∧
  map id (accumulatedOffers s') = map id (accumulatedOffers s).
Proof.
  induction trace as [|e trace IH]; intros s s' Hex Hp Hrun; simpl in Hrun.
  - by simplify_eq.
  - destruct (step value_throws s e) as [s1|] eqn:E; [|done]. simpl in Hrun.
    destruct (exhausted_step _ _ _ _ Hex Hp E) as (Hex1 & Hp1 & Hc1 & Hr1 & Hi1).
    destruct (IH _ _ Hex1 Hp1 Hrun) as (? & ? & ? & ?).
    repeat split; congruence.
Qed.

Lemma no_fetch_after_last_page_witness :
  ∃ s', run true mockStore [LoadNextPage; Upvote "test-1"; LoadNextPage] = Some s' ∧
        getOffers_pending s' = [] ∧ currentPage s' = currentPage mockStore ∧
        offersResource s' = offersResource mockStore ∧
        map id (accumulatedOffers s') = map id (accumulatedOffers mockStore).
Proof.
  eexists. split; [reflexivity|].
  apply (no_fetch_after_last_page true [LoadNextPage; Upvote "test-1"; LoadNextPage] mockStore).
  - exists mockPage. split; reflexivity.
  - reflexivity.
  - reflexivity.
Defined.

(** *** Each failed call rolls back its own delta *)

(** Within the exact range, one offer after two additions and the
    subtractions that take them back, in either order, or one of them. *)
Lemma two_votes_undone (o : Offer) i1 d1 i2 d2 :
  Z.abs (votes o) <= max_exact - 4 -> Z.abs d1 <= 2 -> Z.abs d2 <= 2 ->
  let add i d (x : Offer) :=
    if String.eqb (id x) i then with_votes x (js_add (votes x) d) else x in
  let sub i d (x : Offer) :=
    if String.eqb (id x) i then with_votes x (js_sub (votes x) d) else x in
  sub i2 d2 (sub i1 d1 (add i2 d2 (add i1 d1 o))) = o ∧
  sub i1 d1 (sub i2 d2 (add i2 d2 (add i1 d1 o))) = o ∧
  sub i2 d2 (add i2 d2 (add i1 d1 o)) = add i1 d1 o.
Proof.
  intros Hv H1 H2 add sub. subst add sub. destruct o as [i t de p c im v ca se co cr].
  simpl in *.
  destruct (String.eqb i i1) eqn:E1, (String.eqb i i2) eqn:E2;
    cbn [id votes with_votes]; rewrite ?E1, ?E2; cbn [id votes with_votes];
    rewrite ?E1, ?E2; cbn [id votes with_votes]; rewrite ?E1, ?E2;
    cbn [id votes with_votes]; repeat split; try done; unfold with_votes; cbn [id votes];
    f_equal;
    repeat first
      [ rewrite (js_add_exact v d1) by lia
      | rewrite (js_add_exact v d2) by lia
      | rewrite (js_add_exact (v + d1) d2) by lia
      | rewrite (js_sub_exact (v + d1 + d2) d1) by lia
      | rewrite (js_sub_exact (v + d1 + d2) d2) by lia
      | rewrite (js_sub_exact (v + d1 + d2 - d1) d2) by lia
      | rewrite (js_sub_exact (v + d1 + d2 - d2) d1) by lia
      | rewrite (js_sub_exact (v + d1) d1) by lia
      | rewrite (js_sub_exact (v + d2) d2) by lia ];
    lia.
Qed.

Lemma step_VoteSyncFailed value_throws s k i d :
  updateVote_pending s !! k = Some (i, d) ->
  step value_throws s (VoteSyncFailed k)
  = Some (updateVote_error i d (set_updateVote_pending (delete k (updateVote_pending s)) s)).
Proof. intros H. simpl. by rewrite H. Qed.

Lemma step_VoteSynced value_throws s k i d :
  updateVote_pending s !! k = Some (i, d) ->
  step value_throws s (VoteSynced k)
  = Some (set_updateVote_pending (delete k (updateVote_pending s)) s).
Proof. intros H. simpl. by rewrite H. Qed.

(** X10. Two votes issued back to back roll back independently, as long
    as the tallies are at most 2^53 - 4 in magnitude: if both [updateVote]
    calls fail, in either order, the accumulated offers are those before the
    two votes; if only the second fails, they are those after the first vote
    alone. *)
Theorem failures_roll_back_independently value_throws a1 i1 a2 i2 s :
  Forall (fun o => Z.abs (votes o) <= max_exact - 4) (accumulatedOffers s) ->
  (∃ s', run value_throws (cast a2 i2 (cast a1 i1 s))
           [VoteSyncFailed (length (updateVote_pending s));
            VoteSyncFailed (length (updateVote_pending s))] = Some s' ∧
         accumulatedOffers s' = accumulatedOffers s ∧
         updateVote_pending s' = updateVote_pending s) ∧
  (∃ s', run value_throws (cast a2 i2 (cast a1 i1 s))
           [VoteSyncFailed (S (length (updateVote_pending s)));
            VoteSyncFailed (length (updateVote_pending s))] = Some s' ∧
         accumulatedOffers s' = accumulatedOffers s ∧
         updateVote_pending s' = updateVote_pending s) ∧
  (∃ s', run value_throws (cast a2 i2 (cast a1 i1 s))
           [VoteSynced (length (updateVote_pending s));
            VoteSyncFailed (length (updateVote_pending s))] = Some s' ∧
         accumulatedOffers s' = accumulatedOffers (cast a1 i1 s) ∧
         updateVote_pending s' = updateVote_pending s).
Proof.
  intros Hsafe.
  destruct (cast_effect a1 i1 s) as (_ & Ha1 & Hp1 & _).
  destruct (cast_effect a2 i2 (cast a1 i1 s)) as (_ & Ha2 & Hp2 & _).
  pose proof (toggle_delta_bound (getUserVote i1 s) a1) as Hd1.
  pose proof (toggle_delta_bound (getUserVote i2 (cast a1 i1 s)) a2) as Hd2.
  set (d1 := (toggle_table (getUserVote i1 s) a1).2) in *.
  set (d2 := (toggle_table (getUserVote i2 (cast a1 i1 s)) a2).2) in *.
  set (p := updateVote_pending s) in *.
  assert (Hp : updateVote_pending (cast a2 i2 (cast a1 i1 s)) = p ++ [(i1, d1); (i2, d2)]).
  { by rewrite Hp2, Hp1, <- app_assoc. }
  assert (H0 : (p ++ [(i1, d1); (i2, d2)]) !! length p = Some (i1, d1))
    by apply list_lookup_middle, eq_refl.
  assert (H1 : (p ++ [(i1, d1); (i2, d2)]) !! S (length p) = Some (i2, d2)).
  { rewrite lookup_app_r by lia. by replace (S (length p) - length p)%nat with 1%nat by lia. }
  assert (D0 : delete (length p) (p ++ [(i1, d1); (i2, d2)]) = p ++ [(i2, d2)]).
  { rewrite delete_middle. done. }
  assert (D1 : delete (S (length p)) (p ++ [(i1, d1); (i2, d2)]) = p ++ [(i1, d1)]).
  { change (p ++ [(i1, d1); (i2, d2)]) with (p ++ [(i1, d1)] ++ [(i2, d2)]).
    rewrite app_assoc.
    replace (S (length p)) with (length (p ++ [(i1, d1)])) by (rewrite length_app; simpl; lia).
    by rewrite delete_middle, app_nil_r. }
  assert (L0 : ∀ x : string * Z, (p ++ [x]) !! length p = Some x)
    by (intros x; apply list_lookup_middle, eq_refl).
  assert (E0 : ∀ x : string * Z, delete (length p) (p ++ [x]) = p)
    by (intros x; by rewrite delete_middle, app_nil_r).
  assert (Hoff : ∀ o, o ∈ accumulatedOffers s -> Z.abs (votes o) <= max_exact - 4).
  { by apply Forall_forall. }
  repeat split.
  - eexists. split.
    + cbn [run]. erewrite step_VoteSyncFailed by (rewrite Hp; exact H0).
      cbn [mbind option_bind]. erewrite step_VoteSyncFailed; [reflexivity|].
      cbn. rewrite Hp, D0. apply L0.
    + cbn. rewrite Hp, D0, E0, Ha2, Ha1. split; [|done]. unfold add_delta.
      rewrite !map_map. rewrite <- (map_id (accumulatedOffers s)) at 2.
      apply map_ext_in. intros o Hin%list_elem_of_In.
      apply (two_votes_undone o i1 d1 i2 d2); auto.
  - eexists. split.
    + cbn [run]. erewrite step_VoteSyncFailed by (rewrite Hp; exact H1).
      cbn [mbind option_bind]. erewrite step_VoteSyncFailed; [reflexivity|].
      cbn. rewrite Hp, D1. apply L0.
    + cbn. rewrite Hp, D1, E0, Ha2, Ha1. split; [|done]. unfold add_delta.
      rewrite !map_map. rewrite <- (map_id (accumulatedOffers s)) at 2.
      apply map_ext_in. intros o Hin%list_elem_of_In.
      apply (two_votes_undone o i1 d1 i2 d2); auto.
  - eexists. split.
    + cbn [run]. erewrite step_VoteSynced by (rewrite Hp; exact H0).
      cbn [mbind option_bind]. erewrite step_VoteSyncFailed; [reflexivity|].
      cbn. rewrite Hp, D0. apply L0.
    + cbn. rewrite Hp, D0, E0, Ha2, Ha1. split; [|done]. unfold add_delta.
      rewrite !map_map.
      apply map_ext_in. intros o Hin%list_elem_of_In.
      apply (two_votes_undone o i1 d1 i2 d2); auto.
Qed.

Lemma failures_roll_back_independently_witness :
  ∃ s', run true (cast down "test-1" (cast up "test-1" mockStore))
          [VoteSyncFailed 1; VoteSyncFailed 0] = Some s' ∧
        accumulatedOffers s' = accumulatedOffers mockStore ∧
        updateVote_pending s' = updateVote_pending mockStore.
Proof.
  assert (Hsafe : Forall (fun o => Z.abs (votes o) <= max_exact - 4)
                         (accumulatedOffers mockStore)).
  { constructor; [|constructor]. vm_compute. discriminate. }
  exact (proj1 (proj2 (failures_roll_back_independently true up "test-1" down "test-1"
                         mockStore Hsafe))).
Defined.
End OffersStoreMore.

(** * Further properties of the data source *)

Module OffersApiServiceMore.
Import OffersApiService Spec Derived.

Implicit Types (api : OffersApiService.t) (fetched : list Offer).

Lemma page_of_offers fetched api page n :
  offers (page_of fetched api page n) = take n (drop (page * n) (offersWithVotes fetched api)).
Proof. reflexivity. Qed.

Lemma length_offersWithVotes fetched api :
  length (offersWithVotes fetched api) = length fetched.
Proof. unfold offersWithVotes. by rewrite length_map. Qed.

(** X11. A page of [getOffers] holds [pageSize] offers, or as many as
    are left from its start, or none; [total] is the length of the fetched
    list; and every offer on the page is a fetched offer, changed at most in
    its tally. *)
Theorem page_length fetched api page n :
  length (offers (page_of fetched api page n)) = (n `min` (length fetched - page * n))%nat ∧
  total (page_of fetched api page n) = length fetched ∧
  Forall (fun o => ∃ o0, o0 ∈ fetched ∧ same_but_votes o0 o) (offers (page_of fetched api page n)).
Proof.
  rewrite page_of_offers, length_take, length_drop, length_offersWithVotes.
  split; [done|]. split; [done|].
  apply Forall_forall. intros o Ho. apply subseteq_take, subseteq_drop in Ho.
  unfold offersWithVotes in Ho. apply list_elem_of_fmap in Ho as (o0 & -> & Hin).
  exists o0. split; [done|]. by destruct o0.
Qed.

(** X12. A page that starts at or beyond the end of the fetched list is
    empty and reports [hasMore] false. *)
Theorem page_beyond_data_is_empty fetched api page n :
  (length fetched <= page * n)%nat ->
  offers (page_of fetched api page n) = [] ∧ hasMore (page_of fetched api page n) = false.
Proof.
  intros Hle. split.
  - rewrite page_of_offers, drop_ge; [by destruct n|]. rewrite length_offersWithVotes. lia.
  - cbn. apply bool_decide_eq_false. lia.
Qed.

Lemma page_beyond_data_is_empty_witness :
  offers (page_of mockFetched init 999 10) = [] ∧
  hasMore (page_of mockFetched init 999 10) = false.
Proof.
  apply (page_beyond_data_is_empty mockFetched init 999 10). simpl. lia.
Defined.

Lemma pages_concat fetched api n k :
  concat (map (fun p => offers (page_of fetched api p n)) (seq 0 k))
  = take (k * n) (offersWithVotes fetched api).
Proof.
  induction k as [|k IH]; [done|].
  rewrite seq_S, map_app, concat_app, IH. cbn [map concat Nat.add].
  rewrite app_nil_r, page_of_offers.
  rewrite take_take_drop. f_equal. lia.
Qed.

(** X13. When page [k] reports [hasMore] false, the pages 0 to [k] put
    end to end are the whole fetched list with the cached totals laid over
    it: every offer once, in the order fetched. *)
Theorem pages_cover_the_list fetched api n k :
  hasMore (page_of fetched api k n) = false ->
  concat (map (fun p => offers (page_of fetched api p n)) (seq 0 (S k)))
  = offersWithVotes fetched api.
Proof.
  intros Hmore. rewrite pages_concat. apply take_ge.
  rewrite length_offersWithVotes. cbn in Hmore. apply bool_decide_eq_false in Hmore.
  lia.
Qed.

Lemma pages_cover_the_list_witness :
  concat (map (fun p => offers (page_of mockFetched init p 1)) (seq 0 2))
  = offersWithVotes mockFetched init.
Proof.
  apply (pages_cover_the_list mockFetched init 1 1). reflexivity.
Defined.

(** X14. For a positive page size, [hasMore] is true exactly when the
    next page holds at least one offer. *)
Theorem hasMore_iff_next_page_nonempty fetched api page n :
  (0 < n)%nat ->
  hasMore (page_of fetched api page n) = true ↔ offers (page_of fetched api (S page) n) ≠ [].
Proof.
  intros Hn. rewrite page_of_offers. cbn [hasMore page_of getOffers snd].
  rewrite bool_decide_eq_true. split.
  - intros Hlt Hnil. apply (f_equal length) in Hnil.
    rewrite length_take, length_drop, length_offersWithVotes in Hnil. simpl in Hnil. lia.
  - intros Hne. destruct (decide (page * n + n < length fetched)%nat) as [|Hge]; [done|].
    exfalso. apply Hne. rewrite drop_ge; [by destruct n|].
    rewrite length_offersWithVotes. simpl. lia.
Qed.

Lemma hasMore_iff_next_page_nonempty_witness :
  hasMore (page_of mockFetched init 0 1) = true
  ↔ offers (page_of mockFetched init 1 1) ≠ [].
Proof.
  apply (hasMore_iff_next_page_nonempty mockFetched init 0 1). lia.
Defined.

(** *** The vote cache *)

Lemma updateVote_total offerId delta api :
  (updateVote offerId delta api).2 = js_add (lastKnownTotal api offerId) delta ∧
  lastKnownTotal (updateVote offerId delta api).1 offerId = (updateVote offerId delta api).2.
Proof.
  split.
  - unfold updateVote, lastKnownTotal. simpl.
    destruct (votesCache api !! offerId); [done|].
    destruct (allOffers api) as [l|]; simpl; [|done]. by destruct (find _ l).
  - unfold updateVote, lastKnownTotal at 1. simpl. by rewrite lookup_insert_eq.
Qed.

Lemma updateVote_other offerId other delta api :
  other ≠ offerId ->
  lastKnownTotal (updateVote offerId delta api).1 other = lastKnownTotal api other.
Proof.
  intros Hne. unfold updateVote, lastKnownTotal. simpl. by rewrite lookup_insert_ne.
Qed.

(** X16. A run of [updateVote] calls for one id adds up, as long as the
    magnitude of the last-known total plus the magnitudes of the deltas stays
    within 2^53: the last-known total afterwards is the one before plus the
    sum of the deltas.  With or without that bound, the last-known total of
    every other id is untouched, and so is the fetched list. *)
Theorem updateVotes_accumulate offerId other deltas api :
  other ≠ offerId ->
  (Z.abs (lastKnownTotal api offerId) + foldr (fun d a => Z.abs d + a) 0 deltas <= max_exact ->
   lastKnownTotal (updateVotes offerId deltas api) offerId
   = lastKnownTotal api offerId + foldr Z.add 0 deltas) ∧
  lastKnownTotal (updateVotes offerId deltas api) other = lastKnownTotal api other ∧
  allOffers (updateVotes offerId deltas api) = allOffers api.
Proof.
  intros Hne. unfold updateVotes. revert api.
  induction deltas as [|d deltas IH]; intros api; cbn [foldl foldr].
  { split; [intros _; lia|done]. }
  destruct (IH (updateVote offerId d api).1) as (H1 & H2 & H3).
  destruct (updateVote_total offerId d api) as [Ht Hl].
  rewrite H2, H3, updateVote_other by done. split; [|done].
  intros Hb.
  assert (Hsum : 0 <= foldr (fun d a => Z.abs d + a) 0 deltas).
  { clear. induction deltas as [|x l IHl]; simpl; lia. }
  assert (He : (updateVote offerId d api).2 = lastKnownTotal api offerId + d).
  { rewrite Ht. apply js_add_exact. lia. }
  rewrite H1; rewrite Hl, He; lia.
Qed.

Lemma updateVotes_accumulate_witness :
  lastKnownTotal (updateVotes "test-1" [1; 1; -1] (getOffers 0 1 mockFetched init).1) "test-1"
  = lastKnownTotal (getOffers 0 1 mockFetched init).1 "test-1" + foldr Z.add 0 [1; 1; -1] ∧
  lastKnownTotal (updateVotes "test-1" [1; 1; -1] (getOffers 0 1 mockFetched init).1) "test-2"
  = lastKnownTotal (getOffers 0 1 mockFetched init).1 "test-2" ∧
  allOffers (updateVotes "test-1" [1; 1; -1] (getOffers 0 1 mockFetched init).1)
  = allOffers (getOffers 0 1 mockFetched init).1.
Proof.
  assert (Hne : "test-2" ≠ "test-1") by discriminate.
  destruct (updateVotes_accumulate "test-1" "test-2" [1; 1; -1]
              (getOffers 0 1 mockFetched init).1 Hne) as (H1 & H2 & H3).
  split; [|split; [exact H2|exact H3]].
  apply H1. vm_compute. discriminate.
Defined.

Lemma offersWithVotes_updateVote fetched offerId delta api :
  offersWithVotes fetched (updateVote offerId delta api).1
  = map (fun o => if String.eqb (id o) offerId
                  then with_votes o (updateVote offerId delta api).2 else o)
        (offersWithVotes fetched api).
Proof.
  unfold offersWithVotes. rewrite map_map. apply map_ext. intros o.
  cbn [updateVote fst snd votesCache]. simpl id.
  destruct (String.eqb_spec (id o) offerId) as [->|Hne].
  - by rewrite lookup_insert_eq.
  - by rewrite lookup_insert_ne.
Qed.

(** X15. After [updateVote(offerId, delta)], every page of [getOffers] is
    the page as it was before, with the tally of each offer of that id set
    to the total the call returned. *)
Theorem updateVote_shows_on_every_page fetched offerId delta api page n :
  offers (page_of fetched (updateVote offerId delta api).1 page n)
  = map (fun o => if String.eqb (id o) offerId
                  then with_votes o (updateVote offerId delta api).2 else o)
        (offers (page_of fetched api page n)).
Proof.
  rewrite !page_of_offers, offersWithVotes_updateVote.
  by rewrite skipn_map, firstn_map.
Qed.

(** X17. [getOfferById] of the data source returns what the pages of
    [getOffers] show: the first offer with the id, with its cached total if
    there is one, and nothing if no fetched offer has the id. *)
Theorem getOfferById_agrees_with_pages offer_id fetched api :
  getOfferById offer_id fetched api
  = find (fun o => String.eqb (id o) offer_id) (offersWithVotes fetched api).
Proof.
  unfold getOfferById, offersWithVotes.
  induction fetched as [|o l IH]; [done|]. simpl.
  destruct (String.eqb_spec (id o) offer_id) as [<-|Hne]; [|exact IH].
  destruct (votesCache api !! id o); [done|]. by destruct o.
Qed.

Lemma find_by_id_NoDup (l : list Offer) o0 :
  NoDup (map id l) -> o0 ∈ l -> find (fun o => String.eqb (id o) (id o0)) l = Some o0.
Proof.
  induction l as [|x l IH]; simpl; [by intros _ ?%elem_of_nil|].
  intros [Hx Hl]%NoDup_cons Hin.
  destruct (String.eqb_spec (id x) (id o0)) as [He|Hne].
  - apply elem_of_cons in Hin as [->|Hin]; [done|].
    exfalso. apply Hx. rewrite He. by apply list_elem_of_fmap_2.
  - apply elem_of_cons in Hin as [->|Hin]; [done|]. by apply IH.
Qed.

(** X18. When the fetched offers have distinct ids, the tally of an
    offer on a page is the data source's last-known total for it after that
    [getOffers] call, so, when the tally plus the delta is within 2^53 in
    magnitude, [updateVote(id, delta)] returns that tally plus the delta: the
    total the store shows after its optimistic update. *)
Theorem page_tally_is_last_known fetched api page n o delta :
  NoDup (map id fetched) ->
  o ∈ offers (page_of fetched api page n) ->
  lastKnownTotal (getOffers page n fetched api).1 (id o) = votes o ∧
  (Z.abs (votes o + delta) <= max_exact ->
   (updateVote (id o) delta (getOffers page n fetched api).1).2 = votes o + delta ∧
   js_add (votes o) delta = votes o + delta).
Proof.
  intros Hnd Ho. rewrite page_of_offers in Ho. apply subseteq_take, subseteq_drop in Ho.
  unfold offersWithVotes in Ho. apply list_elem_of_fmap in Ho as (o0 & -> & Hin).
  set (o := with_votes o0 (default (votes o0) (votesCache api !! id o0))).
  assert (H : lastKnownTotal (getOffers page n fetched api).1 (id o) = votes o).
  { unfold lastKnownTotal, o. cbn [getOffers fst votesCache allOffers].
    change (id (with_votes o0 ?v)) with (id o0). change (votes (with_votes o0 ?v)) with v.
    destruct (votesCache api !! id o0) as [v|]; [done|].
    by rewrite find_by_id_NoDup. }
  destruct (updateVote_total (id o) delta (getOffers page n fetched api).1) as [Ht _].
  rewrite H in Ht. split; [exact H|].
  intros Hb. rewrite Ht. split; by apply js_add_exact.
Qed.

Lemma page_tally_is_last_known_witness :
  ∃ o, offers (page_of mockFetched init 0 10) !! 1%nat = Some o ∧
       lastKnownTotal (getOffers 0 10 mockFetched init).1 (id o) = votes o ∧
       (updateVote (id o) 2 (getOffers 0 10 mockFetched init).1).2 = votes o + 2.
Proof.
  eexists. split; [reflexivity|].
  assert (Hnd : NoDup (map id mockFetched)).
  { apply NoDup_cons. split; [|apply NoDup_singleton].
    intros H. apply list_elem_of_singleton in H. discriminate H. }
  destruct (page_tally_is_last_known mockFetched init 0 10 _ 2 Hnd
              (list_elem_of_further _ _ _ (list_elem_of_here _ _))) as (H1 & H3).
  split; [exact H1|]. apply H3. vm_compute. discriminate.
Defined.
End OffersApiServiceMore.

(** * The details page *)

Module OfferDetailsPageFacts.
Import OffersStore Spec Derived OffersStoreFacts OfferDetailsPage.

Implicit Types (s : OffersStore.t).

Lemma offer_id_is_route route_id s o :
  offer route_id s = Some o -> id o = route_id ∧ o ∈ accumulatedOffers s.
Proof.
  unfold offer, getOfferById. destruct route_id as [|c r]; [done|].
  intros [Hin Hid%String.eqb_eq]%find_some. by rewrite list_elem_of_In.
Qed.

(** X20. For a route id whose offer is loaded, the page's handlers and
    signal are the store's: the offer found has that id, [onUpvote] is
    [upvote(id)], [onDownvote] is [downvote(id)], and [userVote] is
    [getUserVote(id)]. *)
Theorem details_page_votes_as_the_store route_id s o :
  offer route_id s = Some o ->
  id o = route_id ∧
  onUpvote route_id s = upvote route_id s ∧
  onDownvote route_id s = downvote route_id s ∧
  userVote route_id s = getUserVote route_id s.
Proof.
  intros Ho. destruct (offer_id_is_route _ _ _ Ho) as [Hid _].
  unfold onUpvote, onDownvote, userVote. by rewrite Ho, Hid.
Qed.

Lemma details_page_votes_as_the_store_witness :
  id mockOffer = "test-1" ∧
  onUpvote "test-1" mockStore = upvote "test-1" mockStore ∧
  onDownvote "test-1" mockStore = downvote "test-1" mockStore ∧
  userVote "test-1" mockStore = getUserVote "test-1" mockStore.
Proof.
  apply (details_page_votes_as_the_store "test-1" mockStore mockOffer). reflexivity.
Defined.

Lemma cast_vote_ids action offer_id s :
  Forall (fun v => offerId v = offer_id ∨ offerId v ∈ map offerId (userVotesSignal s))
         (userVotesSignal (cast action offer_id s)).
Proof.
  apply Forall_forall. intros v Hv.
  destruct (String.eqb_spec (offerId v) offer_id) as [|Hne]; [by left|right].
  assert (Hin : v ∈ votes_for_others offer_id (cast action offer_id s)).
  { unfold votes_for_others. apply list_elem_of_In, filter_In. split; [by apply list_elem_of_In|].
    by apply String.eqb_neq in Hne as ->. }
  rewrite OffersStoreMore.votes_for_others_cast in Hin. unfold votes_for_others in Hin.
  apply list_elem_of_In, filter_In in Hin as [Hin _]. apply list_elem_of_fmap_2.
  by apply list_elem_of_In.
Qed.

Lemma cast_offer_ids action offer_id s :
  map id (accumulatedOffers (cast action offer_id s)) = map id (accumulatedOffers s).
Proof.
  destruct (cast_effect action offer_id s) as (_ & -> & _).
  unfold add_delta. rewrite map_map. apply map_ext. intros o.
  by destruct (String.eqb (id o) offer_id).
Qed.

(** X19. A vote cast from the details page is only ever recorded for a
    loaded offer: every record in the vote list afterwards is for an id that
    had a record before or for an accumulated offer; and unless the route id
    is non-empty and its offer is loaded, both handlers leave the store as
    it was. *)
Theorem details_page_votes_only_for_loaded route_id s :
  Forall (fun v => offerId v ∈ map offerId (userVotesSignal s) ∨
                   offerId v ∈ map id (accumulatedOffers s))
         (userVotesSignal (onUpvote route_id s)) ∧
  Forall (fun v => offerId v ∈ map offerId (userVotesSignal s) ∨
                   offerId v ∈ map id (accumulatedOffers s))
         (userVotesSignal (onDownvote route_id s)) ∧
  (is_Some (getOfferById route_id s) ∧ route_id ≠ EmptyString ∨
   onUpvote route_id s = s ∧ onDownvote route_id s = s).
Proof.
  cut ((Forall (fun v => offerId v ∈ map offerId (userVotesSignal s) ∨
                         offerId v ∈ map id (accumulatedOffers s))
               (userVotesSignal (onUpvote route_id s)) ∧
        Forall (fun v => offerId v ∈ map offerId (userVotesSignal s) ∨
                         offerId v ∈ map id (accumulatedOffers s))
               (userVotesSignal (onDownvote route_id s))) ∧
       (is_Some (getOfferById route_id s) ∧ route_id ≠ EmptyString ∨
        onUpvote route_id s = s ∧ onDownvote route_id s = s)); [tauto|].
  split; [|
    unfold onUpvote, onDownvote, offer; destruct route_id as [|c r]; [by right|];
    destruct (getOfferById (String c r) s); [left; split; [by eexists | done] | by right]].
  assert (Hsame : Forall (fun v => offerId v ∈ map offerId (userVotesSignal s) ∨
                                   offerId v ∈ map id (accumulatedOffers s))
                         (userVotesSignal s)).
  { apply Forall_forall. intros v Hv. left. by apply list_elem_of_fmap_2. }
  assert (H : ∀ action o, offer route_id s = Some o ->
                Forall (fun v => offerId v ∈ map offerId (userVotesSignal s) ∨
                                 offerId v ∈ map id (accumulatedOffers s))
                       (userVotesSignal (cast action (id o) s))).
  { intros action o Ho. destruct (offer_id_is_route _ _ _ Ho) as [_ Hin].
    eapply Forall_impl; [apply cast_vote_ids|]. intros v [->|Hv]; simpl.
    - right. by apply list_elem_of_fmap_2.
    - by left. }
  unfold onUpvote, onDownvote. destruct (offer route_id s) as [o|] eqn:Ho; [|done].
  split; [apply (H up o eq_refl) | apply (H down o eq_refl)].
Qed.
End OfferDetailsPageFacts.

(** * The feed: the store against the data source *)

Module FeedFacts.
Import OffersStore Spec Derived OffersStoreFacts.

Implicit Types (s : OffersStore.t).

(** X21. When the pending page fetch of a reachable state succeeds, the
    page's offers are appended to the accumulated ones, the cursor stays,
    [loading()] is false, [error()] is null, [hasMore()] is the page's
    [hasMore], nothing is pending, and the next [loadNextPage()] asks for
    the following page exactly when the page said there is more. *)
Theorem page_arrival value_throws s response s' :
  reachable value_throws s ->
  step value_throws s (FetchSucceeded response) = Some s' ->
  accumulatedOffers s' = accumulatedOffers s ++ OffersApiService.offers response ∧
  currentPage s' = currentPage s ∧
  loading s' = false ∧ error s' = None ∧
  hasMore value_throws s' = Returned (OffersApiService.hasMore response) ∧
  getOffers_pending s' = [] ∧
  loadNextPage value_throws s'
  = Returned (if OffersApiService.hasMore response
              then set_currentPage (currentPage s + 1) s' else s').
Proof.
  intros Hr%reachable_in_flight Hstep. unfold in_flight_matches in Hr. simpl in Hstep.
  destruct (loading s); rewrite Hr in Hstep; [|done]. simplify_eq.
  unfold loadNextPage, hasMore. simpl. rewrite Hr. simpl.
  repeat split; try done. by destruct (OffersApiService.hasMore response).
Qed.

Lemma page_arrival_witness :
  accumulatedOffers (getOffers_next mockPage freshStore)
  = accumulatedOffers freshStore ++ OffersApiService.offers mockPage ∧
  currentPage (getOffers_next mockPage freshStore) = currentPage freshStore ∧
  loading (getOffers_next mockPage freshStore) = false ∧
  error (getOffers_next mockPage freshStore) = None ∧
  hasMore true (getOffers_next mockPage freshStore)
  = Returned (OffersApiService.hasMore mockPage) ∧
  getOffers_pending (getOffers_next mockPage freshStore) = [] ∧
  loadNextPage true (getOffers_next mockPage freshStore)
  = Returned (if OffersApiService.hasMore mockPage
              then set_currentPage (currentPage freshStore + 1)
                     (getOffers_next mockPage freshStore)
              else getOffers_next mockPage freshStore).
Proof.
  apply (page_arrival true freshStore mockPage (getOffers_next mockPage freshStore)).
  - apply (reachable_new true None). reflexivity.
  - reflexivity.
Defined.

Lemma run_app value_throws t1 t2 : ∀ s,
  run value_throws s (t1 ++ t2) = run value_throws s t1 ≫= fun s1 => run value_throws s1 t2.
Proof.
  induction t1 as [|e t1 IH]; intros s; [done|]. simpl.
  destruct (step value_throws s e); simpl; [apply IH | done].
Qed.

Lemma scroll_state value_throws fetched api k :
  (k * pageSize < length fetched)%nat ->
  ∃ s, run value_throws freshStore (scroll fetched api k) = Some s ∧
       accumulatedOffers s = take (S k * pageSize) (offersWithVotes fetched api) ∧
       currentPage s = k ∧
       offersResource s = Resolved (page_of fetched api k pageSize) ∧
       getOffers_pending s = [].
Proof.
  induction k as [|k IH]; intros Hlt.
  - eexists. split; [reflexivity|]. simpl. by repeat split.
  - destruct IH as (s & Hrun & Ha & Hc & Hres & Hp); [lia|].
    cbn [scroll]. rewrite run_app, Hrun. cbn [mbind option_bind run].
    assert (Hnext : loadNextPage value_throws s = Returned (set_currentPage (k + 1) s)).
    { unfold loadNextPage, loading, hasMore, resource_value. rewrite Hres. cbn.
      rewrite bool_decide_eq_true_2; [by rewrite Hc|]. unfold pageSize in *. lia. }
    cbn [step]. rewrite Hnext. cbn [mbind option_bind step set_currentPage getOffers_pending].
    rewrite Hp. cbn [app mbind option_bind].
    eexists. split; [reflexivity|]. cbn. rewrite Ha. repeat split; try done.
    + change (OffersApiService.offers (page_of fetched api (S k) pageSize))
        with (take pageSize (drop (S k * pageSize) (offersWithVotes fetched api))).
      rewrite take_take_drop. f_equal. lia.
    + lia.
    + by rewrite Hp.
Qed.

(** X22. Scrolling through the feed against the data source, to the
    page that is the last one for the fetched list, accumulates every
    fetched offer once, in the order fetched and with the cached totals; the
    cursor is that page, [hasMore()] is false and a further
    [loadNextPage()] changes nothing. *)
Theorem scrolling_loads_every_offer_once value_throws fetched api k :
  (k * pageSize < length fetched)%nat ->
  (length fetched <= S k * pageSize)%nat ->
  ∃ s, run value_throws freshStore (scroll fetched api k) = Some s ∧
       accumulatedOffers s = offersWithVotes fetched api ∧
       currentPage s = k ∧
       hasMore value_throws s = Returned false ∧
       loadNextPage value_throws s = Returned s.
Proof.
  intros Hlt Hle. destruct (scroll_state value_throws fetched api k Hlt)
    as (s & Hrun & Ha & Hc & Hres & Hp).
  exists s. split; [done|]. split.
  { rewrite Ha. apply take_ge. unfold offersWithVotes. rewrite length_map. lia. }
  split; [done|].
  assert (Hmore : hasMore value_throws s = Returned false).
  { unfold hasMore, resource_value. rewrite Hres. cbn.
    rewrite bool_decide_eq_false_2; [done|]. unfold pageSize in *. lia. }
  split; [done|]. unfold loadNextPage, loading. rewrite Hres, Hmore. done.
Qed.

Lemma scrolling_loads_every_offer_once_witness :
  ∃ s, run true freshStore (scroll mockFetched OffersApiService.init 0) = Some s ∧
       accumulatedOffers s = offersWithVotes mockFetched OffersApiService.init ∧
       currentPage s = 0%nat ∧
       hasMore true s = Returned false ∧
       loadNextPage true s = Returned s.
Proof.
  apply (scrolling_loads_every_offer_once true mockFetched OffersApiService.init 0).
  - simpl. lia.
  - simpl. lia.
Defined.
End FeedFacts.
